(** * LinkedIn lead discovery: retrying client, tree discovery and CSV export

    A shallow embedding of [src/api/client.py], [src/discovery/tree_discovery.py]
    and [src/utils/export.py], with the input helpers of [src/cli/menu.py]
    and the key mask of [src/cli/display.py].

    - Python dictionaries are finite maps from strings to JSON values
      (numbers are integers).
    - The remote service is an oracle threading an abstract [World]: a call
      returns a response or raises, and may answer differently each time.
    - Text is byte strings; [lower] folds the ASCII letters, which is what
      [str.lower] does on ASCII text (every marker the code looks for is ASCII).
    - Typing follows the source's annotations ([urn: str], [username: str]):
      where the code uses an identity key or a handle as a string, it is read
      as one, and a value of another type in its place reads as missing.
    - The coroutines of a level are resumed between their awaits in an order
      given by explicit scheduling choices, and a run can stop after any
      step, which is how an interrupted run is covered. *)

From stdpp Require Import gmap strings list fin_maps sorting pretty.
From Stdlib Require Import ZArith Ascii ssreflect.

Local Set Warnings "-register-all,-rewrite-rw".
Local Open Scope Z_scope.

(** ** Python values *)

Inductive value : Type :=
| VNone
| VBool (b : bool)
| VInt (n : Z)
| VStr (s : string)
| VList (xs : list value)
| VDict (d : gmap string value).

Abbreviation dict := (gmap string value).

(** Truth value of an object, as [if x:] and [not x] test it. *)
Definition truthy (v : value) : bool :=
  match v with
  | VNone => false
  | VBool b => b
  | VInt n => negb (n =? 0)
  | VStr s => negb (bool_decide (s = ""))
  | VList xs => negb (bool_decide (xs = []))
  | VDict d => negb (bool_decide (d = ∅))
  end.

(** [d.get(k)] and [d.get(k, dflt)]. *)
Definition get (d : dict) (k : string) : value := default VNone (d !! k).
Definition get_or (d : dict) (k : string) (dflt : value) : value :=
  default dflt (d !! k).

(** Typed reads: text and integers. *)
Definition text (v : value) : string :=
  match v with VStr s => s | _ => "" end.
Definition int (v : value) : Z :=
  match v with VInt n => n | _ => 0 end.

(** The name Python prints for the type of a value. *)
Definition type_name (v : value) : string :=
  match v with
  | VNone => "NoneType"
  | VBool _ => "bool"
  | VInt _ => "int"
  | VStr _ => "str"
  | VList _ => "list"
  | VDict _ => "dict"
  end.

(** [str(e)] for the [AttributeError] of a missing method. *)
Definition attribute_error (v : value) (attr : string) : string :=
  "'" +:+ type_name v +:+ "' object has no attribute '" +:+ attr +:+ "'".

(** ** Strings *)

Definition lower_ascii (a : ascii) : ascii :=
  let n := N_of_ascii a in
  if ((65 <=? n) && (n <=? 90))%N then ascii_of_N (n + 32) else a.

Fixpoint lower (s : string) : string :=
  match s with
  | EmptyString => EmptyString
  | String a s' => String (lower_ascii a) (lower s')
  end.

Fixpoint starts_with (p s : string) : bool :=
  match p, s with
  | EmptyString, _ => true
  | String a p', String b s' => bool_decide (a = b) && starts_with p' s'
  | String _ _, EmptyString => false
  end.

(** [needle in hay] *)
Fixpoint contains (needle hay : string) : bool :=
  starts_with needle hay ||
  match hay with
  | EmptyString => false
  | String _ hay' => contains needle hay'
  end.

(** [s[:n]] *)
Fixpoint str_take (n : nat) (s : string) : string :=
  match n, s with
  | S n', String a s' => String a (str_take n' s')
  | _, _ => EmptyString
  end.

(** ** The retrying client ([src/api/client.py]) *)

Module Client.

(** What one raw call to the remote service does: it raises, or returns a
    response, which is a dictionary or nothing. *)
Inductive outcome : Type :=
| Raises (e : string)
| Returns (response : option dict).

(** Observable effects of the client, in order. *)
Inductive event : Type :=
| Call
| Sleep (seconds : Z)
| Log (line : string).

Record LeadsAPIClient : Type := {
  max_retries : nat;         (* [range] of a count below 1 is empty, as of 0 *)
  retry_delay : Z;
  log_callback : bool   (* whether a logging callback is installed *)
}.

(** What [_make_api_call_with_retry] returns: [(False, error)] or
    [(True, response)]. *)
Inductive result : Type :=
| Failure (error : string)
| Success (response : dict).

(** How one iteration of the retry loop ends: with [return], or by going on to
    the next iteration ([continue], or the end of the loop body). *)
Inductive control : Type :=
| Return (r : result)
| Next.

Definition non_retryable : list string :=
  ["not found"; "doesn't exist"; "cannot be displayed"].

Section retry.
Context (self : LeadsAPIClient).

Definition _log (message : string) : list event :=
  if log_callback self then [Log message] else [].

(** [attempt < self.max_retries - 1] *)
Definition attempts_remain (attempt : nat) : bool :=
  Z.of_nat attempt <? Z.of_nat (max_retries self) - 1.

Definition not_response (response : option dict) : bool :=
  match response with
  | None => true
  | Some d => bool_decide (d = ∅)
  end.

(** The [except Exception as e] clause, with [e] printed as [err]. *)
Definition on_exception (identifier : string) (attempt : nat) (err : string)
  : control * option string * list event :=
  let last_error := err in
  if contains "429" last_error || contains "too many requests" (lower last_error) then
    if attempts_remain attempt then
      let wait_time := retry_delay self * (Z.of_nat attempt + 1) in
      (Next, Some last_error,
       (if bool_decide (attempt = 0%nat)
        then _log ("[yellow]⏳ (" +:+ identifier +:+ ") Rate limit hit - waiting "
                   +:+ pretty wait_time +:+ "s[/]")
        else [])
       ++ [Sleep wait_time])
    else (Return (Failure "Rate limit exceeded"), Some last_error, [])
  else if attempts_remain attempt then
    (Next, Some last_error,
     (if bool_decide (attempt = 0%nat)
      then _log ("[yellow]⚠ (" +:+ identifier +:+ ") Error: "
                 +:+ str_take 60 last_error +:+ "... retrying[/]")
      else [])
     ++ [Sleep (retry_delay self)])
  else (Next, Some last_error, []).

(** The body of the [for attempt in range(self.max_retries)] loop, after the
    call has produced [o]: the control decision, the new [last_error] and
    the effects. *)
Definition attempt_body (identifier : string) (attempt : nat) (o : outcome)
  : control * option string * list event :=
  match o with
  | Raises e => on_exception identifier attempt e
  | Returns response =>
    if not_response response then
      let last_error := "Empty response" in
      if attempts_remain attempt
      then (Next, Some last_error, [Sleep (retry_delay self)])
      else (Return (Failure last_error), Some last_error, [])
    else
      let d := default ∅ response in
      match d !! "success" with
      | Some flag =>
        if negb (truthy flag) then
          match get_or d "message" (VStr "Unknown error") with
          | VStr last_error =>
            if existsb (λ keyword, contains keyword (lower last_error)) non_retryable
            then (Return (Failure last_error), Some last_error, [])
            else if attempts_remain attempt then
              (Next, Some last_error,
               (if bool_decide (attempt = 0%nat)
                then _log ("[yellow]⚠ (" +:+ identifier +:+ ") "
                           +:+ str_take 60 last_error +:+ "... retrying[/]")
                else [])
               ++ [Sleep 1])
            else (Return (Failure last_error), Some last_error, [])
          | other =>
            (* [last_error.lower()] raises inside the [try] *)
            on_exception identifier attempt (attribute_error other "lower")
          end
        else (Return (Success d), None, [])
      | None =>
        (Return (Failure "Invalid response format"),
         Some "Invalid response format", [])
      end
  end.

Section loop.
Context {World : Type} (api_call : World → outcome * World)
        (identifier : string).

(** The loop from iteration [attempt] on, with [remaining] iterations
    left in [range(self.max_retries)]. *)
Fixpoint retry_loop (remaining attempt : nat) (last_error : option string)
         (w : World) : result * list event * World :=
  match remaining with
  | O =>
    (Failure (match last_error with
              | Some e => if bool_decide (e = "") then "Max retries exceeded" else e
              | None => "Max retries exceeded"
              end), [], w)
  | S remaining' =>
    let '(o, w1) := api_call w in
    let '(ctl, last_error', evs) := attempt_body identifier attempt o in
    match ctl with
    | Return r => (r, Call :: evs, w1)
    | Next =>
      let '(r, evs', w2) := retry_loop remaining' (S attempt) last_error' w1 in
      (r, Call :: evs ++ evs', w2)
    end
  end.

Definition _make_api_call_with_retry (w : World)
  : result * list event * World :=
  retry_loop (max_retries self) 0 None w.
End loop.
End retry.

(** The remote API session: one oracle per endpoint. *)
Record AsyncLinkdAPI (World : Type) : Type := {
  api_get_full_profile : string → World → outcome * World;
  api_get_similar_profiles : string → World → outcome * World
}.
Arguments api_get_full_profile {World} _ _ _.
Arguments api_get_similar_profiles {World} _ _ _.

Section endpoints.
Context {World : Type} (self : LeadsAPIClient) (api : AsyncLinkdAPI World).

(** Returns [(success, full_profile_data, error_message)]. The payload of a
    full-profile response is an object or null; any other value reads as no
    data. *)
Definition get_full_profile (username : string) (w : World)
  : (bool * option dict * option string) * list event * World :=
  let '(r, evs, w') :=
    _make_api_call_with_retry self (api_get_full_profile api username) username w in
  match r with
  | Failure response => ((false, None, Some response), evs, w')
  | Success response =>
    match response !! "data" with
    | Some (VDict profile_data) =>
      if bool_decide (profile_data = ∅) then
        ((false, None, Some "No data in response"), evs, w')
      else if negb (truthy (get profile_data "urn"))
              || negb (truthy (get profile_data "username")) then
        ((false, None, Some "Invalid profile data structure"), evs, w')
      else ((true, Some profile_data, None), evs, w')
    | _ => ((false, None, Some "No data in response"), evs, w')
    end
  end.

(** The entries of a similar-profiles list are objects; an entry of another
    type is dropped with the malformed ones. *)
Definition valid_profile (profile : value) : option dict :=
  match profile with
  | VDict p => if truthy (get p "urn") && truthy (get p "id") then Some p else None
  | _ => None
  end.

(** Returns [(success, profiles_list, error_message)]. *)
Definition get_similar_profiles (urn : string) (w : World)
  : (bool * list dict * option string) * list event * World :=
  let '(r, evs, w') :=
    _make_api_call_with_retry self (api_get_similar_profiles api urn)
                              (str_take 20 urn) w in
  match r with
  | Failure response => ((false, [], Some response), evs, w')
  | Success response =>
    match response !! "data" with
    | Some (VList profiles) =>
      let valid_profiles := omap valid_profile profiles in
      ((true, valid_profiles, None), evs, w')
    | _ => ((false, [], Some "Invalid data format"), evs, w')
    end
  end.

Definition fetch_one (username : string) (w : World)
  : (string * bool * option dict * option string) * list event * World :=
  let '((success, profile, error), evs, w') := get_full_profile username w in
  ((username, success, profile, error), evs, w').

(** [asyncio.gather] over [fetch_one]: the outcomes come back in the order
    of [usernames]. The fetches are threaded through the world one after the
    other; the world being arbitrary, this covers every way the service can
    answer the interleaved calls. *)
Fixpoint get_full_profiles_batch (usernames : list string) (w : World)
  : list (string * bool * option dict * option string) * list event * World :=
  match usernames with
  | [] => ([], [], w)
  | username :: rest =>
    let '(one, evs, w1) := fetch_one username w in
    let '(results, evs', w2) := get_full_profiles_batch rest w1 in
    (one :: results, evs ++ evs', w2)
  end.
End endpoints.

(** *** Vocabulary for the properties of the retry loop *)

(** The failure categories of an attempt that the loop may retry. *)
Inductive category : Type :=
| EmptyResponse
| ExplicitFailure
| RateLimit
| TransportError.

Global Instance category_eq_dec : EqDecision category.
Proof. solve_decision. Defined.

(** A transport-level error text that signals rate limiting. *)
Definition rate_limited (e : string) : bool :=
  contains "429" e || contains "too many requests" (lower e).

(** [hay] contains [needle] up to the case of its letters. *)
Definition contains_ci (needle hay : string) : Prop :=
  ∃ pre mid post, hay = pre +:+ mid +:+ post ∧ lower mid = lower needle.

(** A message carrying one of the terminal markers. *)
Definition terminal_message (m : string) : Prop :=
  ∃ keyword, keyword ∈ non_retryable ∧ contains_ci keyword m.

(** The response carries an explicit failure flag, with message [m]. *)
Definition explicit_failure (o : outcome) (m : string) : Prop :=
  ∃ d flag, o = Returns (Some d) ∧ d !! "success" = Some flag ∧
            truthy flag = false ∧ get_or d "message" (VStr "Unknown error") = VStr m.

(** The category of a retryable failed attempt; [None] for an attempt that
    succeeds or fails terminally. A failure message that is not a string makes
    [.lower()] raise inside the [try], which the loop handles as a transport
    error. *)
Definition retryable_failure (o : outcome) : option category :=
  match o with
  | Raises e => Some (if rate_limited e then RateLimit else TransportError)
  | Returns response =>
    if not_response response then Some EmptyResponse
    else
      let d := default ∅ response in
      match d !! "success" with
      | Some flag =>
        if truthy flag then None
        else match get_or d "message" (VStr "Unknown error") with
             | VStr m =>
               if existsb (λ keyword, contains keyword (lower m)) non_retryable
               then None else Some ExplicitFailure
             | _ => Some TransportError
             end
      | None => None
      end
  end.

(** The error message of a failed attempt: the text of the exception, the
    message of the failure response, or the fixed text for an empty one. *)
Definition error_message (o : outcome) : string :=
  match o with
  | Raises e => e
  | Returns response =>
    if not_response response then "Empty response"
    else match get_or (default ∅ response) "message" (VStr "Unknown error") with
         | VStr m => m
         | other => attribute_error other "lower"
         end
  end.

(** The outcomes of [n] successive calls. *)
Fixpoint call_sequence {World : Type} (api_call : World → outcome * World)
         (n : nat) (w : World) : list outcome * World :=
  match n with
  | O => ([], w)
  | S n' =>
    let '(o, w1) := api_call w in
    let '(os, w2) := call_sequence api_call n' w1 in
    (o :: os, w2)
  end.

Global Instance event_eq_dec : EqDecision event.
Proof. solve_decision. Defined.

(** The wait the specification gives each category before the next attempt. *)
Definition backoff (self : LeadsAPIClient) (attempt : nat) (c : category) : Z :=
  match c with
  | EmptyResponse => retry_delay self
  | ExplicitFailure => 1
  | RateLimit => retry_delay self * (Z.of_nat attempt + 1)
  | TransportError => retry_delay self
  end.

(** The error a call reports when its last attempt [o] was a retryable
    failure and no attempt is left. *)
Definition reported_error (o : outcome) : string :=
  match retryable_failure o with
  | Some RateLimit => "Rate limit exceeded"
  | Some TransportError =>
    if bool_decide (error_message o = "") then "Max retries exceeded"
    else error_message o
  | _ => error_message o
  end.

(** The effects of successive attempts that all go on to the next one. *)
Fixpoint retried_events (self : LeadsAPIClient) (identifier : string)
         (attempt : nat) (os : list outcome) : list event :=
  match os with
  | [] => []
  | o :: os' =>
    Call :: (attempt_body self identifier attempt o).2
         ++ retried_events self identifier (S attempt) os'
  end.

Definition calls (evs : list event) : nat :=
  length (filter (λ ev, ev = Call) evs).

Definition is_log (ev : event) : bool :=
  match ev with Log _ => true | _ => false end.

Definition log_lines (evs : list event) : list string :=
  omap (λ ev, match ev with Log line => Some line | _ => None end) evs.

End Client.

(** ** CSV export ([src/utils/export.py]) *)

Module CsvExport.

(** Typed reads of nested profile data: the entries of the [languages],
    [position], [skills] and [educations] lists are objects and the names in
    them are text, as the code's [.get] and [', '.join] need. *)
Definition obj (v : value) : dict :=
  match v with VDict d => d | _ => ∅ end.
Definition items (v : value) : list value :=
  match v with VList xs => xs | _ => [] end.

(** [sep.join(parts)] *)
Fixpoint join (sep : string) (parts : list string) : string :=
  match parts with
  | [] => ""
  | [part] => part
  | part :: rest => part +:+ sep +:+ join sep rest
  end.

Definition names (entries : list value) : list string :=
  map (λ entry, text (get_or (obj entry) "name" (VStr ""))) entries.

(** Flatten nested profile data for CSV export. *)
Definition flatten_profile (profile : dict) : dict :=
  let flattened : dict :=
    list_to_map
      [("id", get_or profile "id" (VStr ""));
       ("urn", get_or profile "urn" (VStr ""));
       ("username", get_or profile "username" (VStr ""));
       ("firstName", get_or profile "firstName" (VStr ""));
       ("lastName", get_or profile "lastName" (VStr ""));
       ("headline", get_or profile "headline" (VStr ""));
       ("summary", get_or profile "summary" (VStr ""));
       ("isCreator", get_or profile "isCreator" (VBool false));
       ("isPremium", get_or profile "isPremium" (VBool false));
       ("profilePicture", get_or profile "profilePicture" (VStr ""));
       ("depth_level", get_or profile "depth_level" (VInt 0));
       ("source_urn", get_or profile "source_urn" (VStr ""))] in
  let geo := get_or profile "geo" (VDict ∅) in
  let flattened :=
    if truthy geo then
      <["city" := get_or (obj geo) "city" (VStr "")]>
        (<["country" := get_or (obj geo) "country" (VStr "")]>
           (<["location" := get_or (obj geo) "full" (VStr "")]> flattened))
    else flattened in
  let languages := get_or profile "languages" (VList []) in
  let flattened :=
    if truthy languages then
      <["languages" := VStr (join ", " (names (take 3 (items languages))))]> flattened
    else flattened in
  let positions := get_or profile "position" (VList []) in
  let flattened :=
    if truthy positions && bool_decide (0 < length (items positions))%nat then
      let current_pos := obj (default VNone (head (items positions))) in
      <["current_company_url" := get_or current_pos "companyURL" (VStr "")]>
        (<["current_company" := get_or current_pos "companyName" (VStr "")]>
           (<["current_title" := get_or current_pos "title" (VStr "")]> flattened))
    else flattened in
  let skills := get_or profile "skills" (VList []) in
  let flattened :=
    if truthy skills then
      <["skills" := VStr (join ", " (names (take 10 (items skills))))]> flattened
    else flattened in
  let educations := get_or profile "educations" (VList []) in
  let flattened :=
    if truthy educations && bool_decide (0 < length (items educations))%nat then
      let edu := obj (default VNone (head (items educations))) in
      <["education" := get_or edu "schoolName" (VStr "")]> flattened
    else flattened in
  flattened.

(** The key sets [export_to_csv] computes from the flattened rows. *)
Definition all_keys (flattened_profiles : list dict) : gset string :=
  ⋃ (dom <$> flattened_profiles).

(** [any(profile.get(key) for profile in flattened_profiles)] *)
Definition any_value (flattened_profiles : list dict) (key : string) : bool :=
  existsb (λ profile, truthy (get profile key)) flattened_profiles.

Definition non_empty_keys (flattened_profiles : list dict) : gset string :=
  filter (λ key, any_value flattened_profiles key = true)
         (all_keys flattened_profiles).

(** [sorted(non_empty_keys)] *)
Definition fieldnames (flattened_profiles : list dict) : list string :=
  merge_sort (≤)%string (elements (non_empty_keys flattened_profiles)).

(** One written row: the cells of the columns, a missing key giving the empty
    cell ([extrasaction='ignore'] drops the keys that are not columns). *)
Definition row (columns : list string) (profile : dict) : list value :=
  map (λ key, get_or profile key (VStr "")) columns.

(** What [export_to_csv] writes: the header and the rows; nothing for an
    empty list of profiles. *)
Definition export_to_csv (profiles : list dict)
  : option (list string * list (list value)) :=
  if bool_decide (profiles = []) then None
  else
    let flattened_profiles := flatten_profile <$> profiles in
    let columns := fieldnames flattened_profiles in
    Some (columns, row columns <$> flattened_profiles).

(** A value that is absent or holds nothing: [None], the empty text, the
    empty list, the empty object. Numbers and booleans hold a value. *)
Definition is_empty (v : value) : bool :=
  match v with
  | VNone => true
  | VStr s => bool_decide (s = "")
  | VList xs => bool_decide (xs = [])
  | VDict d => bool_decide (d = ∅)
  | VBool _ | VInt _ => false
  end.

End CsvExport.

(** ** Tree discovery ([src/discovery/tree_discovery.py]) *)

Module Discovery.
Import Client.

(** The mutable fields of a [ProfileTreeDiscovery] object. *)
Record ProfileTreeDiscovery : Type := {
  discovered_profiles : list dict;
  seen_urns : gset string;
  failed_usernames : list string;
  failed_urns : list string;
  log_buffer : list string   (* deque(maxlen=30) *)
}.

(** The dictionary [_build_result] returns. *)
Record report : Type := {
  profiles : list dict;
  total_discovered : nat;
  unique_urns : nat;
  report_failed_usernames : list string;
  report_failed_urns : list string;
  activity_log : list string
}.

Definition new_discovery : ProfileTreeDiscovery :=
  {| discovered_profiles := []; seen_urns := ∅; failed_usernames := [];
     failed_urns := []; log_buffer := [] |}.

(** How an f-string prints an optional error. *)
Definition str_opt (e : option string) : string := default "None" e.

Definition _add_log (message : string) (self : ProfileTreeDiscovery)
  : ProfileTreeDiscovery :=
  let buffer := log_buffer self ++ [message] in
  {| discovered_profiles := discovered_profiles self;
     seen_urns := seen_urns self;
     failed_usernames := failed_usernames self;
     failed_urns := failed_urns self;
     log_buffer := drop (length buffer - 30) buffer |}.

(** The lines the client passes to its callback, which is [_add_log]. *)
Definition callback_logs (evs : list event) (self : ProfileTreeDiscovery)
  : ProfileTreeDiscovery :=
  foldl (λ self line, _add_log line self) self (log_lines evs).
Global Arguments callback_logs : simpl never.

Definition clear_log (self : ProfileTreeDiscovery) : ProfileTreeDiscovery :=
  {| discovered_profiles := discovered_profiles self;
     seen_urns := seen_urns self;
     failed_usernames := failed_usernames self;
     failed_urns := failed_urns self;
     log_buffer := [] |}.

Definition _add_discovered_profile (profile_data : dict)
           (self : ProfileTreeDiscovery) : ProfileTreeDiscovery :=
  {| discovered_profiles := discovered_profiles self ++ [profile_data];
     seen_urns := seen_urns self;
     failed_usernames := failed_usernames self;
     failed_urns := failed_urns self;
     log_buffer := log_buffer self |}.

Definition add_seen (urn : string) (self : ProfileTreeDiscovery)
  : ProfileTreeDiscovery :=
  {| discovered_profiles := discovered_profiles self;
     seen_urns := {[urn]} ∪ seen_urns self;
     failed_usernames := failed_usernames self;
     failed_urns := failed_urns self;
     log_buffer := log_buffer self |}.

Definition add_failed_username (username : string) (self : ProfileTreeDiscovery)
  : ProfileTreeDiscovery :=
  {| discovered_profiles := discovered_profiles self;
     seen_urns := seen_urns self;
     failed_usernames := failed_usernames self ++ [username];
     failed_urns := failed_urns self;
     log_buffer := log_buffer self |}.

Definition add_failed_urn (urn : string) (self : ProfileTreeDiscovery)
  : ProfileTreeDiscovery :=
  {| discovered_profiles := discovered_profiles self;
     seen_urns := seen_urns self;
     failed_usernames := failed_usernames self;
     failed_urns := failed_urns self ++ [urn];
     log_buffer := log_buffer self |}.

Definition _build_result (self : ProfileTreeDiscovery) : report :=
  {| profiles := discovered_profiles self;
     total_discovered := length (discovered_profiles self);
     unique_urns := size (seen_urns self);
     report_failed_usernames := failed_usernames self;
     report_failed_urns := failed_urns self;
     activity_log := log_buffer self |}.

(** The record saved for a frontier item: a copy with [depth_level] set and
    [depth] removed. *)
Definition saved_record (profile : dict) (depth_level : value) : dict :=
  delete "depth" (<["depth_level" := depth_level]> profile).

(** A [process_profile] coroutine of one level: not yet past its
    similar-profiles lookup, waiting for its batch of full profiles, or
    returned. *)
Inductive task : Type :=
| Pending (profile_info : dict)
| Fetching (profile_info : dict) (usernames_to_fetch : list string)
| Finished (new_profiles : list dict).

Definition finished (t : task) : bool :=
  match t with Finished _ => true | _ => false end.

Definition task_result (t : task) : list dict :=
  match t with Finished new_profiles => new_profiles | _ => [] end.

(** Where the run stands. *)
Inductive pc : Type :=
| Seeding (usernames : list string) (starting_urns : list dict)
| Looping (queue : list (dict * Z)) (current_depth_level : Z)
| Gathering (tasks : list task) (queue : list (dict * Z)) (current_depth_level : Z)
| Returned.

Section engine.
Context {World : Type} (client : LeadsAPIClient) (api : AsyncLinkdAPI World).
Context (max_depth : Z).

(** [self.api_client.log_callback = self._add_log] *)
Definition api_client : LeadsAPIClient :=
  {| max_retries := max_retries client; retry_delay := retry_delay client;
     log_callback := true |}.

(** One iteration of the seed loop of [discover_from_usernames]. *)
Definition seed_iteration (username : string) (starting_urns : list dict)
           (self : ProfileTreeDiscovery) (w : World)
  : list dict * ProfileTreeDiscovery * World :=
  let '((success, profile_data, error), evs, w') :=
    get_full_profile api_client api username w in
  let self := callback_logs evs self in
  if success && truthy (VDict (default ∅ profile_data)) then
    let profile_data := default ∅ profile_data in
    let urn := text (get profile_data "urn") in
    if bool_decide (urn ≠ "") && bool_decide (urn ∉ seen_urns self) then
      let self := add_seen urn self in
      let profile_data := <["source_urn" := VStr ""]> (<["depth" := VInt 0]> profile_data) in
      (starting_urns ++ [profile_data],
       _add_log ("[green]✓ " +:+ username +:+ " -> Full profile fetched[/]") self,
       w')
    else if bool_decide (urn ≠ "") then
      (starting_urns,
       _add_log ("[yellow]⊘ " +:+ username +:+ " -> Already discovered[/]") self,
       w')
    else
      (starting_urns,
       _add_log ("[red]✗ " +:+ username +:+ " -> No URN in profile data[/]")
                (add_failed_username username self),
       w')
  else
    (starting_urns,
     _add_log ("[red]✗ " +:+ username +:+ " -> " +:+ str_opt error +:+ "[/]")
              (add_failed_username username self),
     w').

(** The level-0 saving loop of [_discover_tree_iterative]. *)
Fixpoint save_batch (current_batch : list dict) (self : ProfileTreeDiscovery)
  : ProfileTreeDiscovery :=
  match current_batch with
  | [] => self
  | profile_info :: rest =>
    if bool_decide (is_Some (profile_info !! "urn")) then
      save_batch rest
        (_add_discovered_profile
           (saved_record profile_info (get_or profile_info "depth" (VInt 0))) self)
    else save_batch rest self
  end.

(** The loop of [process_profile] over the similar profiles: the handles to
    fetch, each identity key marked seen as it is queued. *)
Fixpoint mark_similar (similar_profiles : list dict)
         (usernames_to_fetch : list string) (self : ProfileTreeDiscovery)
  : list string * ProfileTreeDiscovery :=
  match similar_profiles with
  | [] => (usernames_to_fetch, self)
  | similar :: rest =>
    let similar_urn := text (get similar "urn") in
    let similar_username :=
      if truthy (get similar "username") then get similar "username"
      else get similar "publicIdentifier" in
    if bool_decide (similar_urn ≠ "") && truthy similar_username
       && bool_decide (similar_urn ∉ seen_urns self)
    then mark_similar rest (usernames_to_fetch ++ [text similar_username])
                      (add_seen similar_urn self)
    else mark_similar rest usernames_to_fetch self
  end.

(** [process_profile] up to the point where it awaits the batch. *)
Definition process_profile_lookup (profile_info : dict)
           (self : ProfileTreeDiscovery) (w : World)
  : task * ProfileTreeDiscovery * World :=
  let urn := text (get profile_info "urn") in
  let '((success, similar_profiles, error), evs, w') :=
    get_similar_profiles api_client api urn w in
  let self := callback_logs evs self in
  if success then
    let '(usernames_to_fetch, self) := mark_similar similar_profiles [] self in
    if bool_decide (usernames_to_fetch = []) then
      (Finished [],
       _add_log ("[yellow]⊘ " +:+ str_take 20 urn
                 +:+ "... -> No new profiles (all seen before)[/]") self,
       w')
    else (Fetching profile_info usernames_to_fetch, self, w')
  else
    (Finished [],
     _add_log ("[red]✗ " +:+ str_take 20 urn +:+ "... -> " +:+ str_opt error +:+ "[/]")
              (add_failed_urn urn self),
     w').

(** The loop of [process_profile] over the fetched full profiles. *)
Fixpoint save_fetched (urn : value) (current_depth_val : Z)
         (full_profile_results : list (string * bool * option dict * option string))
         (new_profiles : list dict) (self : ProfileTreeDiscovery)
  : list dict * ProfileTreeDiscovery :=
  match full_profile_results with
  | [] => (new_profiles, self)
  | (username, fetch_success, full_profile, fetch_error) :: rest =>
    if fetch_success && truthy (VDict (default ∅ full_profile)) then
      let full_profile :=
        <["source_urn" := urn]>
          (<["depth" := VInt (current_depth_val + 1)]> (default ∅ full_profile)) in
      let profile_to_save := saved_record full_profile (get full_profile "depth") in
      save_fetched urn current_depth_val rest (new_profiles ++ [full_profile])
                   (_add_discovered_profile profile_to_save self)
    else
      save_fetched urn current_depth_val rest new_profiles
        (_add_log ("[yellow]⚠ " +:+ username +:+ " -> Failed to fetch full profile: "
                   +:+ str_opt fetch_error +:+ "[/]") self)
  end.

(** [process_profile] from the batch fetch to its return. *)
Definition process_profile_fetch (profile_info : dict)
           (usernames_to_fetch : list string)
           (self : ProfileTreeDiscovery) (w : World)
  : task * ProfileTreeDiscovery * World :=
  let urn := get profile_info "urn" in
  let current_depth_val := int (get_or profile_info "depth" (VInt 0)) in
  let '(full_profile_results, evs, w') :=
    get_full_profiles_batch api_client api usernames_to_fetch w in
  let self := callback_logs evs self in
  let '(new_profiles, self) :=
    save_fetched urn current_depth_val full_profile_results [] self in
  let self :=
    if bool_decide (new_profiles = []) then
      _add_log ("[yellow]⊘ " +:+ str_take 20 (text urn)
                +:+ "... -> No profiles fetched[/]") self
    else
      _add_log ("[green]✓ " +:+ str_take 20 (text urn) +:+ "... -> Fetched "
                +:+ pretty (length new_profiles) +:+ " full profiles[/]") self in
  (Finished new_profiles, self, w').

(** Resuming the [i]-th coroutine that has not returned yet. *)
Fixpoint resume (i : nat) (tasks : list task)
         (self : ProfileTreeDiscovery) (w : World)
  : list task * ProfileTreeDiscovery * World :=
  match tasks with
  | [] => ([], self, w)
  | t :: rest =>
    match t, i with
    | Finished _, _ =>
      let '(rest', self, w) := resume i rest self w in (t :: rest', self, w)
    | Pending profile_info, O =>
      let '(t', self, w) := process_profile_lookup profile_info self w in
      (t' :: rest, self, w)
    | Fetching profile_info usernames_to_fetch, O =>
      let '(t', self, w) :=
        process_profile_fetch profile_info usernames_to_fetch self w in
      (t' :: rest, self, w)
    | _, S i' =>
      let '(rest', self, w) := resume i' rest self w in (t :: rest', self, w)
    end
  end.

Definition unfinished (tasks : list task) : nat :=
  length (filter (λ t, finished t = false) tasks).

(** The state of a run: the object, the remote world and the control point. *)
Record machine : Type := {
  self_of : ProfileTreeDiscovery;
  world_of : World;
  at_pc : pc
}.

(** [discover_from_usernames] up to its seed loop. *)
Definition start (usernames : list string) (w : World) : machine :=
  {| self_of :=
       _add_log ("[cyan]→ Starting discovery with " +:+ pretty (length usernames)
                 +:+ " usernames at depth " +:+ pretty max_depth +:+ "[/]")
                (clear_log new_discovery);
     world_of := w;
     at_pc := Seeding usernames [] |}.

(** One step of the run. At a gather, [choice] picks which unfinished
    coroutine is resumed next: the coroutines of a level share the object
    and run between their awaits in any order. The semaphore of
    [max_concurrent] slots only rules some of these orders out; resuming the
    first unfinished coroutine each time is the order it leaves with one
    slot. The progress bar and the live display are not modelled. *)
Definition step (choice : nat) (m : machine) : machine :=
  let self := self_of m in
  let w := world_of m in
  match at_pc m with
  | Seeding (username :: rest) starting_urns =>
    let '(starting_urns, self, w) := seed_iteration username starting_urns self w in
    {| self_of := self; world_of := w; at_pc := Seeding rest starting_urns |}
  | Seeding [] starting_urns =>
    if bool_decide (starting_urns = []) then
      {| self_of := _add_log "[red]No valid URNs found from provided usernames[/]" self;
         world_of := w; at_pc := Returned |}
    else
      {| self_of := _add_log ("[green]Found " +:+ pretty (length starting_urns)
                              +:+ " starting profiles[/]") self;
         world_of := w;
         at_pc := Looping ((λ profile, (profile, 0)) <$> starting_urns) 0 |}
  | Looping queue current_depth_level =>
    if bool_decide (queue = []) then
      {| self_of := self; world_of := w; at_pc := Returned |}
    else
      let current_batch :=
        fst <$> filter (λ item, item.2 = current_depth_level) queue in
      let remaining := filter (λ item, item.2 ≠ current_depth_level) queue in
      if bool_decide (current_batch = []) then
        {| self_of := self; world_of := w;
           at_pc := Looping remaining (current_depth_level + 1) |}
      else
        let self :=
          if bool_decide (current_depth_level = 0)
          then save_batch current_batch self else self in
        if bool_decide (current_depth_level >= max_depth) then
          {| self_of := self; world_of := w; at_pc := Returned |}
        else
          {| self_of :=
               _add_log ("[cyan]→ Processing depth level "
                         +:+ pretty (current_depth_level + 1) +:+ "/"
                         +:+ pretty max_depth +:+ "[/]") self;
             world_of := w;
             at_pc := Gathering (Pending <$> current_batch) remaining
                                current_depth_level |}
  | Gathering tasks queue current_depth_level =>
    if bool_decide (unfinished tasks = 0%nat) then
      let results := task_result <$> tasks in
      let queue :=
        queue ++ ((λ profile, (profile, int (get profile "depth")))
                    <$> concat results) in
      let self :=
        _add_log ("[cyan]✓ Depth " +:+ pretty (current_depth_level + 1)
                  +:+ " complete: Found " +:+ pretty (length (concat results))
                  +:+ " new profiles[/]") self in
      let self :=
        _add_log ("[cyan]  Total discovered: "
                  +:+ pretty (length (discovered_profiles self)) +:+ "[/]") self in
      {| self_of := self; world_of := w;
         at_pc := Looping queue (current_depth_level + 1) |}
    else
      let '(tasks, self, w) :=
        resume (choice `mod` unfinished tasks) tasks self w in
      {| self_of := self; world_of := w;
         at_pc := Gathering tasks queue current_depth_level |}
  | Returned => m
  end.

(** The run under a sequence of scheduling choices. A run cut short, by an
    interruption or an error, stands where its last step left it (the lines
    the handlers log on the way out are left out). *)
Definition run (choices : list nat) (m : machine) : machine :=
  foldl (λ m choice, step choice m) m choices.

(** The report of a run: the one [discover_from_usernames] returns when the
    run has completed, the one the caller builds from the object when it
    was cut short. *)
Definition discover_from_usernames (usernames : list string) (w : World)
           (choices : list nat) : report :=
  _build_result (self_of (run choices (start usernames w))).

Definition completed (usernames : list string) (w : World)
           (choices : list nat) : bool :=
  match at_pc (run choices (start usernames w)) with
  | Returned => true
  | _ => false
  end.
End engine.

(** *** Vocabulary for the properties of a report *)

(** A seed record: recorded at level 0 with no source. *)
Definition seed_record_shape (r : dict) : Prop :=
  r !! "depth_level" = Some (VInt 0) ∧ r !! "source_urn" = Some (VStr "").

(** [p] is the record of the frontier node that discovered [r]: the source
    key of [r] is the identity key of [p], one level up. *)
Definition discovered_by (p r : dict) : Prop :=
  ∃ key n,
    p !! "urn" = Some key ∧ r !! "source_urn" = Some key ∧
    p !! "depth_level" = Some (VInt n) ∧ r !! "depth_level" = Some (VInt (n + 1)) ∧
    0 ≤ n.

(** Every record is a seed record or was discovered by a record reported
    before it. *)
Definition forest (records : list dict) : Prop :=
  ∀ i r, records !! i = Some r →
         seed_record_shape r
         ∨ ∃ j p, (j < i)%nat ∧ records !! j = Some p ∧ discovered_by p r.

(** A resolved seed that waits to be saved. *)
Definition seed_item (f : dict) : Prop :=
  f !! "depth" = Some (VInt 0) ∧ f !! "source_urn" = Some (VStr "") ∧
  is_Some (f !! "urn").

(** A frontier item whose record is in [records]. *)
Definition frontier_item (records : list dict) (f : dict) : Prop :=
  ∃ key n p,
    f !! "urn" = Some key ∧ f !! "depth" = Some (VInt n) ∧ 0 ≤ n ∧
    p ∈ records ∧ p !! "urn" = Some key ∧ p !! "depth_level" = Some (VInt n).

Definition task_inv (records : list dict) (t : task) : Prop :=
  match t with
  | Pending f | Fetching f _ => frontier_item records f
  | Finished new_profiles => Forall (frontier_item records) new_profiles
  end.

Definition pc_inv (records : list dict) (c : pc) : Prop :=
  match c with
  | Seeding _ starting_urns => records = [] ∧ Forall seed_item starting_urns
  | Looping queue level =>
    (level = 0 ∧ records = [] ∧
     Forall (λ item, seed_item item.1 ∧ item.2 = 0) queue)
    ∨ (0 < level ∧ Forall (λ item, frontier_item records item.1) queue)
  | Gathering tasks queue level =>
    0 ≤ level ∧ Forall (task_inv records) tasks ∧
    Forall (λ item, frontier_item records item.1) queue
  | Returned => True
  end.

Definition machine_inv {World : Type} (m : machine (World := World)) : Prop :=
  forest (discovered_profiles (self_of m))
  ∧ pc_inv (discovered_profiles (self_of m)) (at_pc m).

(** The identity keys of the records of a report. *)
Definition record_keys (records : list dict) : list value :=
  (λ r, get r "urn") <$> records.

End Discovery.

(** *** Vocabulary for further properties of a run *)

Module DiscoveryInv.
Import Client Discovery.

(** The identity key of a record or frontier item, as text. *)
Definition key (f : dict) : string := text (get f "urn").

(** The record carries an integer [depth_level] between [lo] and [hi]. *)
Definition depth_level_in (lo hi : Z) (r : dict) : Prop :=
  ∃ n, r !! "depth_level" = Some (VInt n) ∧ lo ≤ n ≤ hi.

(** The levels of the records never decrease along the list. *)
Definition level_ordered (records : list dict) : Prop :=
  ∀ i j r r' n n',
    (i ≤ j)%nat → records !! i = Some r → records !! j = Some r' →
    r !! "depth_level" = Some (VInt n) → r' !! "depth_level" = Some (VInt n') →
    n ≤ n'.

Definition is_seed_record (r : dict) : bool :=
  match r !! "depth_level" with
  | Some (VInt 0) => true
  | _ => false
  end.

(** The identity keys of the records of level 0. *)
Definition seed_keys (records : list dict) : list string :=
  key <$> filter (λ r, is_seed_record r = true) records.

Definition item_depth (item : dict * Z) : Prop :=
  item.1 !! "depth" = Some (VInt item.2).

Definition task_level (level : Z) (t : task) : Prop :=
  match t with
  | Pending f | Fetching f _ => f !! "depth" = Some (VInt level)
  | Finished new_profiles =>
    Forall (λ f, f !! "depth" = Some (VInt (level + 1))) new_profiles
  end.

(** Resolved seeds: pairwise distinct keys, all marked seen, at depth 0. *)
Definition fresh_seeds (seen : gset string) (items : list dict) : Prop :=
  NoDup (key <$> items)
  ∧ (∀ f, f ∈ items → key f ∈ seen)
  ∧ Forall (λ f, f !! "depth" = Some (VInt 0) ∧ is_Some (f !! "urn")) items.

Definition pc_facts (usernames : list string) (max_depth : Z)
           (self : ProfileTreeDiscovery) (c : pc) : Prop :=
  match c with
  | Seeding rest starting_urns =>
    (∃ processed, usernames = processed ++ rest
                  ∧ failed_usernames self `sublist_of` processed)
    ∧ discovered_profiles self = []
    ∧ failed_urns self = []
    ∧ fresh_seeds (seen_urns self) starting_urns
  | Looping queue level =>
    0 ≤ level
    ∧ Forall item_depth queue
    ∧ Forall (depth_level_in 0 level) (discovered_profiles self)
    ∧ (level = 0 →
       discovered_profiles self = [] ∧ failed_urns self = []
       ∧ fresh_seeds (seen_urns self) queue.*1)
  | Gathering tasks queue level =>
    0 ≤ level < max_depth
    ∧ Forall (task_level level) tasks
    ∧ Forall item_depth queue
    ∧ Forall (depth_level_in 0 (level + 1)) (discovered_profiles self)
  | Returned => True
  end.

Definition run_facts {World : Type} (usernames : list string) (max_depth : Z)
           (m : machine (World := World)) : Prop :=
  (length (log_buffer (self_of m)) ≤ 30)%nat
  ∧ failed_usernames (self_of m) `sublist_of` usernames
  ∧ Forall (depth_level_in 0 (Z.max 0 max_depth)) (discovered_profiles (self_of m))
  ∧ level_ordered (discovered_profiles (self_of m))
  ∧ NoDup (seed_keys (discovered_profiles (self_of m)))
  ∧ (∀ k, k ∈ seed_keys (discovered_profiles (self_of m)) →
          k ∈ seen_urns (self_of m))
  ∧ (∀ u, u ∈ failed_urns (self_of m) →
          ∃ p, p ∈ discovered_profiles (self_of m) ∧ key p = u)
  ∧ pc_facts usernames max_depth (self_of m) (at_pc m).

(** What resuming a coroutine of level [level] does to the object. *)
Definition level_effect (level : Z) (s s' : ProfileTreeDiscovery) : Prop :=
  seen_urns s ⊆ seen_urns s'
  ∧ failed_usernames s' = failed_usernames s
  ∧ ((length (log_buffer s) ≤ 30)%nat → (length (log_buffer s') ≤ 30)%nat)
  ∧ (∃ added, discovered_profiles s' = discovered_profiles s ++ added
              ∧ Forall (λ r, r !! "depth_level" = Some (VInt (level + 1))) added)
  ∧ (∃ more, failed_urns s' = failed_urns s ++ more
             ∧ ∀ u, u ∈ more → ∃ p, p ∈ discovered_profiles s ∧ key p = u).

(** A similar-list entry the marking loop queues unless its key is seen. *)
Definition eligible (similar : dict) : Prop :=
  text (get similar "urn") ≠ ""
  ∧ truthy (if truthy (get similar "username") then get similar "username"
            else get similar "publicIdentifier") = true.

End DiscoveryInv.

(** ** Export file names and columns ([src/utils/export.py]) *)

(** [s[n:]] *)
Fixpoint str_drop (n : nat) (s : string) : string :=
  match n, s with
  | S n', String _ s' => str_drop n' s'
  | _, _ => s
  end.

(** [s[-n:]], for a positive [n] *)
Definition str_last (n : nat) (s : string) : string :=
  str_drop (String.length s - n) s.

(** [s.endswith(suffix)] *)
Definition ends_with (suffix s : string) : bool :=
  bool_decide (str_last (String.length suffix) s = suffix).

Module ExportNames.

(** The name of the file each exporter writes, from the name it is given
    ([None] or a text) and the time stamp [strftime] prints. *)
Definition json_filename (timestamp : string) (filename : option string) : string :=
  let filename :=
    if bool_decide (default "" filename = "")
    then "linkedin_leads_" +:+ timestamp +:+ ".json"
    else default "" filename in
  if ends_with ".json" filename then filename else filename +:+ ".json".

Definition csv_filename (timestamp : string) (filename : option string) : string :=
  let filename :=
    if bool_decide (default "" filename = "")
    then "linkedin_leads_" +:+ timestamp +:+ ".csv"
    else default "" filename in
  if ends_with ".csv" filename then filename else filename +:+ ".csv".

Definition tree_filename (timestamp : string) (filename : option string) : string :=
  let filename :=
    if bool_decide (default "" filename = "")
    then "linkedin_leads_tree_" +:+ timestamp +:+ ".txt"
    else default "" filename in
  if ends_with ".txt" filename then filename else filename +:+ ".txt".

(** The fields [flatten_profile] always writes, and all it can write. *)
Definition base_columns : list string :=
  ["id"; "urn"; "username"; "firstName"; "lastName"; "headline"; "summary";
   "isCreator"; "isPremium"; "profilePicture"; "depth_level"; "source_urn"].

Definition nested_columns : list string :=
  ["location"; "country"; "city"; "languages"; "current_title";
   "current_company"; "current_company_url"; "skills"; "education"].

(** The steps of [flatten_profile]: the base fields, then the fields each
    non-empty nested structure adds, the last step first. *)
Definition base_fields (profile : dict) : dict :=
  list_to_map
    [("id", get_or profile "id" (VStr ""));
     ("urn", get_or profile "urn" (VStr ""));
     ("username", get_or profile "username" (VStr ""));
     ("firstName", get_or profile "firstName" (VStr ""));
     ("lastName", get_or profile "lastName" (VStr ""));
     ("headline", get_or profile "headline" (VStr ""));
     ("summary", get_or profile "summary" (VStr ""));
     ("isCreator", get_or profile "isCreator" (VBool false));
     ("isPremium", get_or profile "isPremium" (VBool false));
     ("profilePicture", get_or profile "profilePicture" (VStr ""));
     ("depth_level", get_or profile "depth_level" (VInt 0));
     ("source_urn", get_or profile "source_urn" (VStr ""))].

Definition with_fields (fields : list (string * value)) (flattened : dict) : dict :=
  foldr (λ kv m, <[kv.1 := kv.2]> m) flattened fields.

Definition nested_fields (profile : dict) : list (bool * list (string * value)) :=
  let geo := get_or profile "geo" (VDict ∅) in
  let languages := get_or profile "languages" (VList []) in
  let positions := get_or profile "position" (VList []) in
  let current_pos := CsvExport.obj (default VNone (head (CsvExport.items positions))) in
  let skills := get_or profile "skills" (VList []) in
  let educations := get_or profile "educations" (VList []) in
  let edu := CsvExport.obj (default VNone (head (CsvExport.items educations))) in
  [(truthy educations && bool_decide (0 < length (CsvExport.items educations))%nat,
    [("education", get_or edu "schoolName" (VStr ""))]);
   (truthy skills,
    [("skills",
      VStr (CsvExport.join ", "
              (CsvExport.names (take 10 (CsvExport.items skills)))))]);
   (truthy positions && bool_decide (0 < length (CsvExport.items positions))%nat,
    [("current_company_url", get_or current_pos "companyURL" (VStr ""));
     ("current_company", get_or current_pos "companyName" (VStr ""));
     ("current_title", get_or current_pos "title" (VStr ""))]);
   (truthy languages,
    [("languages",
      VStr (CsvExport.join ", "
              (CsvExport.names (take 3 (CsvExport.items languages)))))]);
   (truthy geo,
    [("city", get_or (CsvExport.obj geo) "city" (VStr ""));
     ("country", get_or (CsvExport.obj geo) "country" (VStr ""));
     ("location", get_or (CsvExport.obj geo) "full" (VStr ""))])].

End ExportNames.

(** ** Input and display helpers ([src/cli/menu.py], [src/cli/display.py]) *)

Module Cli.

(** Text is held as bytes. A text of ASCII characters has one byte per
    character, so that its length, its slices and its whitespace are those
    Python computes; the properties of this module are stated for such
    text. *)
Fixpoint ascii_only (s : string) : bool :=
  match s with
  | EmptyString => true
  | String a s' => (N_of_ascii a <? 128)%N && ascii_only s'
  end.

(** The ASCII characters [str.isspace] holds of. *)
Definition is_space (a : ascii) : bool :=
  let n := N_of_ascii a in
  (((9 <=? n) && (n <=? 13)) || ((28 <=? n) && (n <=? 32)))%N.

Fixpoint lstrip (s : string) : string :=
  match s with
  | EmptyString => EmptyString
  | String a s' => if is_space a then lstrip s' else s
  end.

Fixpoint rstrip (s : string) : string :=
  match s with
  | EmptyString => EmptyString
  | String a s' =>
    if is_space a && bool_decide (rstrip s' = "") then EmptyString
    else String a (rstrip s')
  end.

(** [s.strip()] *)
Definition strip (s : string) : string := rstrip (lstrip s).

(** [s.split(sep)] for a separator of one character *)
Fixpoint split (sep : ascii) (s : string) : list string :=
  match s with
  | EmptyString => [EmptyString]
  | String a s' =>
    if bool_decide (a = sep) then EmptyString :: split sep s'
    else match split sep s' with
         | part :: parts => String a part :: parts
         | [] => [String a EmptyString]
         end
  end.

(** What [get_usernames_input] returns for the text the prompt gave (nothing
    when the prompt gave none); the interruption that makes it return [None]
    is left out. *)
Definition get_usernames_input (usernames_input : option string) : list string :=
  if bool_decide (default "" usernames_input = "") then []
  else
    strip <$> filter (λ u, strip u ≠ "") (split "," (default "" usernames_input)).

(** What [load_usernames_from_file] returns for the lines of the file;
    [None] stands for a file that is missing or cannot be read. *)
Definition load_usernames_from_file (file : option (list string)) : list string :=
  match file with
  | None => []
  | Some lines => strip <$> filter (λ line, strip line ≠ "") lines
  end.

(** The masked key [show_header] prints. *)
Definition masked_api_key (api_key : string) : string :=
  if bool_decide (14 < String.length api_key)%nat
  then str_take 8 api_key +:+ "..." +:+ str_last 6 api_key
  else "***...***".

(** [x.isdigit()], for ASCII text: some characters, all of them digits. *)
Definition is_digit (a : ascii) : bool :=
  let n := N_of_ascii a in ((48 <=? n) && (n <=? 57))%N.

Fixpoint all_digits (x : string) : bool :=
  match x with
  | EmptyString => true
  | String a x' => is_digit a && all_digits x'
  end.

Definition isdigit (x : string) : bool :=
  negb (bool_decide (x = "")) && all_digits x.

(** [int(x)] for a text of digits, read from the left onto [acc]. *)
Fixpoint int_of_digits (acc : Z) (x : string) : Z :=
  match x with
  | EmptyString => acc
  | String a x' => int_of_digits (10 * acc + (Z.of_N (N_of_ascii a) - 48)) x'
  end.

(** The validator of the depth prompt:
    [lambda x: x.isdigit() and 1 <= int(x) <= 10]. *)
Definition depth_validate (x : string) : bool :=
  if isdigit x
  then (1 <=? int_of_digits 0 x) && (int_of_digits 0 x <=? 10)
  else false.

(** What [get_depth] returns for the answer the prompt accepted:
    [int(depth)]. *)
Definition get_depth (depth : string) : Z := int_of_digits 0 depth.

(** A handle as the prompt can take it back: not empty, free of commas, with
    no whitespace at either end. *)
Definition clean_handle (u : string) : Prop :=
  u ≠ "" ∧ lstrip u = u ∧ rstrip u = u ∧ contains "," u = false.

End Cli.

(** * Test inputs *)

Definition client3 : Client.LeadsAPIClient :=
  {| Client.max_retries := 3; Client.retry_delay := 2; Client.log_callback := true |}.

(** A service that is first busy, then reports that the profile is gone; the
    world counts the calls made. *)
Definition busy_then_gone (w : nat) : Client.outcome * nat :=
  (match w with
   | O => Client.Raises "503 Service Unavailable"
   | _ => Client.Returns (Some {[ "success" := VBool false;
                                  "message" := VStr "Profile Not Found" ]})
   end, S w).

Definition client1 : Client.LeadsAPIClient :=
  {| Client.max_retries := 1; Client.retry_delay := 2; Client.log_callback := true |}.

(** A service that always answers with a rate-limit error. *)
Definition always_rate_limited (w : nat) : Client.outcome * nat :=
  (Client.Raises "429 Too Many Requests", S w).

(** A service that always answers with an empty response. *)
Definition always_empty (w : nat) : Client.outcome * nat :=
  (Client.Returns None, S w).

(** A service that is rate limited once, then answers. *)
Definition limited_then_ok (w : nat) : Client.outcome * nat :=
  (match w with
   | O => Client.Raises "HTTP 429"
   | _ => Client.Returns (Some {[ "success" := VBool true ]})
   end, S w).

(** A session whose full-profile endpoint succeeds with an empty payload. *)
Definition api_empty_payload : Client.AsyncLinkdAPI nat :=
  {| Client.api_get_full_profile := λ _ w,
       (Client.Returns (Some {[ "success" := VBool true; "data" := VDict ∅ ]}), S w);
     Client.api_get_similar_profiles := λ _ w, (Client.Returns None, S w) |}.

(** A session whose full-profile endpoint knows "alice" only. *)
Definition api_alice_only : Client.AsyncLinkdAPI nat :=
  {| Client.api_get_full_profile := λ username w,
       (if bool_decide (username = "alice")
        then Client.Returns
               (Some {[ "success" := VBool true;
                        "data" := VDict {[ "urn" := VStr "A";
                                           "username" := VStr "alice" ]} ]})
        else Client.Returns
               (Some {[ "success" := VBool false;
                        "message" := VStr "Profile not found" ]}),
        S w);
     Client.api_get_similar_profiles := λ _ w, (Client.Returns None, S w) |}.

(** The record of a seed, as a run with no expansion reports it. *)
Definition seed_record : dict :=
  {[ "urn" := VStr "A"; "username" := VStr "alice";
     "depth_level" := VInt 0; "source_urn" := VStr "" ]}.

(** A session whose similar-profiles list names two candidates under keys
    other than the ones their full profiles carry: the entry for "alice"
    has key "B" while her profile has key "A", the entry for "carol" has key
    "D" while her profile has key "C". *)
Definition api_two_keys : Client.AsyncLinkdAPI nat :=
  {| Client.api_get_full_profile := λ username w,
       (if bool_decide (username = "alice") then
          Client.Returns
            (Some {[ "success" := VBool true;
                     "data" := VDict {[ "urn" := VStr "A";
                                        "username" := VStr "alice" ]} ]})
        else if bool_decide (username = "carol") then
          Client.Returns
            (Some {[ "success" := VBool true;
                     "data" := VDict {[ "urn" := VStr "C";
                                        "username" := VStr "carol" ]} ]})
        else
          Client.Returns
            (Some {[ "success" := VBool false;
                     "message" := VStr "Profile not found" ]}),
        S w);
     Client.api_get_similar_profiles := λ urn w,
       (if bool_decide (urn = "A") then
          Client.Returns
            (Some {[ "success" := VBool true;
                     "data" := VList
                       [VDict {[ "urn" := VStr "B"; "id" := VInt 1;
                                 "username" := VStr "alice" ]};
                        VDict {[ "urn" := VStr "D"; "id" := VInt 2;
                                 "username" := VStr "carol" ]}] ]})
        else
          Client.Returns (Some {[ "success" := VBool true; "data" := VList [] ]}),
        S w) |}.

(** The sequential schedule: always resume the first unfinished coroutine. *)
Definition sequential (steps : nat) : list nat := replicate steps 0%nat.

(** The scenario of the specification: "alice" resolves to key "A" with one
    similar candidate, "carol" with key "C"; "bob" is not found. *)
Definition api_scenario : Client.AsyncLinkdAPI nat :=
  {| Client.api_get_full_profile := λ username w,
       (if bool_decide (username = "alice") then
          Client.Returns
            (Some {[ "success" := VBool true;
                     "data" := VDict {[ "urn" := VStr "A";
                                        "username" := VStr "alice" ]} ]})
        else if bool_decide (username = "carol") then
          Client.Returns
            (Some {[ "success" := VBool true;
                     "data" := VDict {[ "urn" := VStr "C";
                                        "username" := VStr "carol" ]} ]})
        else if bool_decide (username = "dave") then
          Client.Returns
            (Some {[ "success" := VBool true;
                     "data" := VDict {[ "urn" := VStr "D";
                                        "username" := VStr "dave" ]} ]})
        else
          Client.Returns
            (Some {[ "success" := VBool false;
                     "message" := VStr "Profile not found" ]}),
        S w);
     Client.api_get_similar_profiles := λ urn w,
       (if bool_decide (urn = "A") || bool_decide (urn = "D") then
          Client.Returns
            (Some {[ "success" := VBool true;
                     "data" := VList
                       [VDict {[ "urn" := VStr "C"; "id" := VInt 1;
                                 "username" := VStr "carol" ]}] ]})
        else
          Client.Returns (Some {[ "success" := VBool true; "data" := VList [] ]}),
        S w) |}.

(** What a report shows of a record: key, level and source. *)
Definition summary (r : dict) : option value * option value * option value :=
  (r !! "urn", r !! "depth_level", r !! "source_urn").

(** A service whose response carries no [success] entry. *)
Definition unrecognised (w : nat) : Client.outcome * nat :=
  (Client.Returns (Some {[ "status" := VStr "ok" ]}), S w).

(** * Properties *)

(** ** Strings *)

Lemma lower_app (s t : string) : lower (s +:+ t) = lower s +:+ lower t.
Proof. induction s as [|a s IH]; simpl; [done|]. by rewrite IH. Qed.

Lemma lower_ascii_idemp (a : ascii) : lower_ascii (lower_ascii a) = lower_ascii a.
Proof. by destruct a as [[] [] [] [] [] [] [] []]. Qed.

Lemma lower_idemp (s : string) : lower (lower s) = lower s.
Proof. induction s as [|a s IH]; simpl; [done|]. by rewrite lower_ascii_idemp IH. Qed.

Lemma starts_with_spec (p s : string) :
  starts_with p s = true ↔ ∃ post, s = p +:+ post.
Proof.
  revert s. induction p as [|a p IH]; intros s; simpl.
  - split; [intros _; by exists s|done].
  - destruct s as [|b s].
    + split; [done|]. by intros [post ?].
    + rewrite andb_true_iff bool_decide_eq_true IH. split.
      * intros [-> [post ->]]. by exists post.
      * intros [post [= -> ->]]. split; [done|]. by exists post.
Qed.

Lemma contains_spec (needle hay : string) :
  contains needle hay = true ↔ ∃ pre post, hay = pre +:+ needle +:+ post.
Proof.
  induction hay as [|b hay IH]; simpl.
  - rewrite orb_false_r starts_with_spec. split.
    + intros [post ->]. by exists "", post.
    + intros [[|] [post H]]; simpl in H; [by exists post|done].
  - rewrite orb_true_iff starts_with_spec IH. split.
    + intros [[post ->]|[pre [post ->]]].
      * by exists "", post.
      * by exists (String b pre), post.
    + intros [[|a pre] [post H]]; simpl in H.
      * left. by exists post.
      * injection H as -> ->. right. by exists pre, post.
Qed.

Lemma lower_split (s a b : string) :
  lower s = a +:+ b → ∃ a' b', s = a' +:+ b' ∧ lower a' = a ∧ lower b' = b.
Proof.
  revert s. induction a as [|x a IH]; intros s H; simpl in H.
  - by exists "", s.
  - destruct s as [|y s]; simpl in H; [done|].
    injection H as Hx Hs. destruct (IH _ Hs) as (a' & b' & -> & <- & <-).
    exists (String y a'), b'. by rewrite /= Hx.
Qed.

(** On a lowercase needle, the test the code performs is containment up to
    case. *)
Lemma contains_lower_ci (needle hay : string) :
  lower needle = needle →
  contains needle (lower hay) = true ↔ Client.contains_ci needle hay.
Proof.
  intros Hn. rewrite contains_spec /Client.contains_ci. split.
  - intros (pre & post & H).
    apply lower_split in H as (pre' & rest & -> & <- & H).
    apply lower_split in H as (mid & post' & -> & Hmid & <-).
    exists pre', mid, post'. by rewrite Hn.
  - intros (pre & mid & post & -> & Hmid).
    exists (lower pre), (lower post). by rewrite !lower_app Hmid Hn.
Qed.

Lemma terminal_message_check (m : string) :
  existsb (λ keyword, contains keyword (lower m)) Client.non_retryable = true
  ↔ Client.terminal_message m.
Proof.
  rewrite /Client.terminal_message /Client.non_retryable /= !orb_true_iff.
  rewrite !contains_lower_ci //. split.
  - intros [H|[H|[H|?]]]; [..|done]; eexists; (split; [|exact H]); set_solver.
  - intros (k & Hk & H).
    rewrite !elem_of_cons elem_of_nil in Hk.
    destruct Hk as [->|[->|[->|[]]]]; auto.
Qed.

(** ** The retry loop *)

Section retry_facts.
Import Client.
Context (self : LeadsAPIClient) (identifier : string).

Lemma attribute_error_not_rate_limited (other : value) :
  rate_limited (attribute_error other "lower") = false.
Proof. by destruct other. Qed.

(** A retryable failure with attempts left: the loop records the error,
    possibly logs, sleeps for the category's backoff and goes on. *)
Lemma attempt_body_retry (attempt : nat) (o : outcome) (c : category) :
  retryable_failure o = Some c →
  attempts_remain self attempt = true →
  ∃ logs,
    attempt_body self identifier attempt o
    = (Next, Some (error_message o), logs ++ [Sleep (backoff self attempt c)])
    ∧ forallb is_log logs = true
    ∧ length logs = (if bool_decide (attempt = 0%nat) && log_callback self
                        && bool_decide (c ≠ EmptyResponse)
                     then 1 else 0)%nat.
Proof.
  intros Hc Hrem.
  destruct o as [e|response]; simpl in *.
  - injection Hc as <-. rewrite /on_exception /rate_limited Hrem.
    destruct (contains "429" e || _); rewrite /_log;
      destruct (bool_decide (attempt = 0%nat)), (log_callback self);
      eexists; (split; [reflexivity|done]).
  - destruct (not_response response).
    { injection Hc as <-. rewrite Hrem. exists []. by rewrite andb_false_r. }
    destruct (default ∅ response !! "success") as [flag|]; [|done].
    destruct (truthy flag); [done|]. simpl.
    destruct (get_or _ _ _) as [| | |m| |] eqn:Hm;
      try (injection Hc as <-;
           rewrite /on_exception
                   (attribute_error_not_rate_limited _ : _ || _ = false)
                   Hrem /_log;
           destruct (bool_decide (attempt = 0%nat)), (log_callback self);
           eexists; (split; [reflexivity|done])).
    destruct (contains "not found" _ || _); [done|]. injection Hc as <-.
    rewrite Hrem /_log.
    destruct (bool_decide (attempt = 0%nat)), (log_callback self);
      eexists; (split; [reflexivity|done]).
Qed.

(** A retryable failure on the last attempt. *)
Lemma attempt_body_last (attempt : nat) (o : outcome) (c : category) :
  retryable_failure o = Some c →
  attempts_remain self attempt = false →
  attempt_body self identifier attempt o
  = match c with
    | TransportError => (Next, Some (error_message o), [])
    | RateLimit => (Return (Failure "Rate limit exceeded"), Some (error_message o), [])
    | _ => (Return (Failure (error_message o)), Some (error_message o), [])
    end.
Proof.
  intros Hc Hrem.
  destruct o as [e|response]; simpl in *.
  - injection Hc as <-. rewrite /on_exception /rate_limited Hrem.
    by destruct (contains "429" e || _).
  - destruct (not_response response).
    { injection Hc as <-. by rewrite Hrem. }
    destruct (default ∅ response !! "success") as [flag|]; [|done].
    destruct (truthy flag); [done|]. simpl.
    destruct (get_or _ _ _) as [| | |m| |] eqn:Hm;
      try (injection Hc as <-;
           by rewrite /on_exception
                   (attribute_error_not_rate_limited _ : _ || _ = false)
                   Hrem).
    destruct (contains "not found" _ || _); [done|]. injection Hc as <-.
    by rewrite Hrem.
Qed.
End retry_facts.

Section loop_facts.
Import Client.
Context (self : LeadsAPIClient) (identifier : string).
Context {World : Type} (api_call : World → outcome * World).

Lemma calls_cons_call (evs : list event) : calls (Call :: evs) = S (calls evs).
Proof. by rewrite /calls filter_cons_True. Qed.

Lemma calls_app (evs evs' : list event) :
  calls (evs ++ evs') = (calls evs + calls evs')%nat.
Proof. by rewrite /calls filter_app length_app. Qed.

Lemma calls_logs_sleep (logs : list event) (t : Z) :
  forallb is_log logs = true → calls (logs ++ [Sleep t]) = 0%nat.
Proof.
  intros H. rewrite calls_app /calls /=.
  induction logs as [|[] logs IH]; simpl in *; try done.
  rewrite filter_cons_False //. by apply IH.
Qed.

Lemma log_lines_app (evs evs' : list event) :
  log_lines (evs ++ evs') = log_lines evs ++ log_lines evs'.
Proof. by rewrite /log_lines omap_app. Qed.

Lemma log_lines_length (logs : list event) :
  forallb is_log logs = true → length (log_lines logs) = length logs.
Proof.
  induction logs as [|[] logs IH]; simpl; try done.
  intros H. by rewrite IH.
Qed.

(** An iteration that is retried unfolds into the next one. *)
Lemma retry_loop_retry (remaining attempt : nat) (le : option string)
      (w w1 : World) (o : outcome) (c : category) :
  api_call w = (o, w1) →
  retryable_failure o = Some c →
  attempts_remain self attempt = true →
  retry_loop self api_call identifier (S remaining) attempt le w
  = let '(r, evs, w2) :=
        retry_loop self api_call identifier remaining (S attempt)
                   (Some (error_message o)) w1 in
    (r, Call :: (attempt_body self identifier attempt o).2 ++ evs, w2).
Proof.
  intros Hw Hc Hrem. simpl. rewrite Hw.
  destruct (attempt_body_retry self identifier attempt o c Hc Hrem)
    as (logs & -> & _). done.
Qed.

Lemma attempts_remain_lt (attempt : nat) :
  attempts_remain self attempt = true ↔ (S attempt < max_retries self)%nat.
Proof. rewrite /attempts_remain Z.ltb_lt. lia. Qed.

(** The loop runs through a prefix of retryable failures as long as an
    attempt is left after it. *)
Lemma retry_loop_prefix (k : nat) :
  ∀ (remaining attempt : nat) (le : option string) (w wk : World)
    (os : list outcome),
    call_sequence api_call k w = (os, wk) →
    Forall (λ o, is_Some (retryable_failure o)) os →
    (attempt + k < max_retries self)%nat →
    retry_loop self api_call identifier (k + remaining) attempt le w
    = let '(r, evs, w') :=
          retry_loop self api_call identifier remaining (attempt + k)
                     (from_option (Some ∘ error_message) le (last os)) wk in
      (r, retried_events self identifier attempt os ++ evs, w').
Proof.
  induction k as [|k IH]; intros remaining attempt le w wk os Hseq Hos Hlt.
  - injection Hseq as <- <-. rewrite Nat.add_0_r /=.
    by destruct (retry_loop _ _ _ _ _ _ _) as [[??]?].
  - simpl in Hseq. destruct (api_call w) as [o w1] eqn:Hw.
    destruct (call_sequence api_call k w1) as [os' w2] eqn:Hseq'.
    injection Hseq as <- <-.
    apply Forall_cons in Hos as [[c Hc] Hos'].
    rewrite /= -/(retry_loop self api_call identifier (S (k + remaining)) attempt le w).
    rewrite (retry_loop_retry _ _ _ _ _ _ _ Hw Hc);
      [apply attempts_remain_lt; lia|].
    rewrite (IH remaining (S attempt) _ w1 w2 os' Hseq' Hos'); [lia|].
    replace (S attempt + k)%nat with (attempt + S k)%nat by lia.
    assert (from_option (Some ∘ error_message) (Some (error_message o)) (last os')
            = from_option (Some ∘ error_message) le (last (o :: os'))) as ->.
    { rewrite last_cons. by destruct (last os'). }
    destruct (retry_loop _ _ _ _ _ _ _) as [[r evs] w'].
    by rewrite -app_assoc.
Qed.

Lemma retried_events_calls (os : list outcome) :
  ∀ attempt,
    Forall (λ o, is_Some (retryable_failure o)) os →
    (attempt + length os < max_retries self)%nat →
    calls (retried_events self identifier attempt os) = length os.
Proof.
  induction os as [|o os IH]; intros attempt Hos Hlt; [done|].
  apply Forall_cons in Hos as [[c Hc] Hos]. simpl in Hlt.
  rewrite /= calls_cons_call calls_app IH //; [lia|].
  destruct (attempt_body_retry self identifier attempt o c Hc)
    as (logs & -> & Hlogs & _); [apply attempts_remain_lt; lia|].
  by rewrite /= calls_logs_sleep.
Qed.

Lemma call_sequence_length (n : nat) (w wn : World) (os : list outcome) :
  call_sequence api_call n w = (os, wn) → length os = n.
Proof.
  revert w os. induction n as [|n IH]; intros w os H; simpl in H.
  - by injection H as <- _.
  - destruct (api_call w) as [o w1].
    destruct (call_sequence api_call n w1) as [os' w2] eqn:Hseq.
    injection H as <- Hwn. subst. simpl. f_equal. eauto.
Qed.

Lemma call_sequence_snoc (n : nat) (w : World) :
  call_sequence api_call (S n) w
  = let '(os, wn) := call_sequence api_call n w in
    let '(o, w') := api_call wn in
    (os ++ [o], w').
Proof.
  revert w. induction n as [|n IH]; intros w.
  - simpl. by destruct (api_call w).
  - change (call_sequence api_call (S (S n)) w)
      with (let '(o, w1) := api_call w in
            let '(os, w2) := call_sequence api_call (S n) w1 in
            (o :: os, w2)).
    destruct (api_call w) as [o w1] eqn:Hw. rewrite IH /= Hw.
    destruct (call_sequence api_call n w1) as [os wn].
    by destruct (api_call wn).
Qed.
End loop_facts.

Section retry_claims.
Import Client.
Context (self : LeadsAPIClient) (identifier : string).
Context {World : Type} (api_call : World → outcome * World).

Lemma attempt_body_terminal (attempt : nat) (o : outcome) (m : string) :
  explicit_failure o m → terminal_message m →
  attempt_body self identifier attempt o = (Return (Failure m), Some m, []).
Proof.
  intros (d & flag & -> & Hflag & Hfalse & Hm) Hterm.
  apply terminal_message_check in Hterm.
  rewrite /attempt_body /not_response bool_decide_eq_false_2.
  { intros ->. by rewrite lookup_empty in Hflag. }
  cbn [default]. by rewrite Hflag Hfalse Hm [negb _]/= Hterm.
Qed.

(** The call as the loop entered after [k] retried attempts. *)
Lemma make_api_call_prefix (k : nat) (w wk : World) (os : list outcome) :
  call_sequence api_call k w = (os, wk) →
  Forall (λ o, is_Some (retryable_failure o)) os →
  (k < max_retries self)%nat →
  _make_api_call_with_retry self api_call identifier w
  = let '(r, evs, w') :=
        retry_loop self api_call identifier (max_retries self - k) k
                   (from_option (Some ∘ error_message) None (last os)) wk in
    (r, retried_events self identifier 0 os ++ evs, w').
Proof.
  intros Hseq Hos Hk. rewrite /_make_api_call_with_retry.
  replace (max_retries self) with (k + (max_retries self - k))%nat at 1 by lia.
  by rewrite (retry_loop_prefix self identifier api_call k _ 0%nat None w wk os).
Qed.

(** C4: when an attempt answers with an explicit failure flag and a message
    containing, in any letter case, "not found", "doesn't exist" or "cannot
    be displayed", the call fails at once with that message: whatever the
    number of attempts left, the failing call is the last effect of the run. *)
Theorem terminal_failure_fails_immediately
        (k : nat) (w wk w' : World) (os : list outcome) (o : outcome)
        (m : string) :
  call_sequence api_call k w = (os, wk) →
  Forall (λ o, is_Some (retryable_failure o)) os →
  (k < max_retries self)%nat →
  api_call wk = (o, w') →
  explicit_failure o m →
  terminal_message m →
  ∃ evs,
    _make_api_call_with_retry self api_call identifier w = (Failure m, evs, w')
    ∧ calls evs = S k
    ∧ last evs = Some Call.
Proof.
  intros Hseq Hos Hk Hw Ho Hm.
  rewrite (make_api_call_prefix k w wk os) //.
  destruct (max_retries self - k)%nat as [|r] eqn:Hr; [lia|].
  rewrite /= Hw (attempt_body_terminal k o m) //.
  eexists. split; [done|]. split.
  - pose proof (call_sequence_length api_call k w wk os Hseq) as Hlen.
    rewrite calls_app retried_events_calls //; [lia|].
    rewrite Hlen /calls /=. lia.
  - by rewrite last_app.
Qed.

(** C5, as amended: when every attempt of a call fails with a retryable
    failure, the call makes all its attempts and fails with the message of
    the last one if that was an empty response, an explicit failure or a
    transport error with a non-empty text; after a last attempt that was
    rate limited it fails with the fixed text "Rate limit exceeded", and
    after a transport error with an empty text with "Max retries
    exceeded". *)
Theorem exhausted_retries_error
        (w wn : World) (os : list outcome) (o : outcome) :
  call_sequence api_call (max_retries self) w = (os ++ [o], wn) →
  Forall (λ o, is_Some (retryable_failure o)) (os ++ [o]) →
  ∃ evs,
    _make_api_call_with_retry self api_call identifier w
    = (Failure (reported_error o), evs, wn)
    ∧ calls evs = max_retries self.
Proof.
  intros Hseq Hall.
  destruct (max_retries self) as [|n] eqn:Hmax.
  { injection Hseq as Hnil _. by destruct os. }
  rewrite call_sequence_snoc in Hseq.
  destruct (call_sequence api_call n w) as [os' wk] eqn:Hpre.
  destruct (api_call wk) as [o' wn'] eqn:Hw.
  injection Hseq as Hos ->. apply app_inj_tail in Hos as [-> ->].
  apply Forall_app in Hall as [Hos Ho].
  apply Forall_singleton in Ho as [c Hc].
  rewrite (make_api_call_prefix n w wk os) //; [lia|].
  rewrite Hmax. replace (S n - n)%nat with 1%nat by lia.
  pose proof (call_sequence_length api_call n w wk os Hpre) as Hlen.
  assert (calls (retried_events self identifier 0 os) = n) as Hcalls.
  { rewrite retried_events_calls //; lia. }
  assert (attempts_remain self n = false) as Hlast.
  { apply not_true_is_false. rewrite attempts_remain_lt. lia. }
  rewrite /retry_loop Hw (attempt_body_last self identifier n o c Hc Hlast).
  rewrite /reported_error Hc.
  destruct c; (eexists; split; [reflexivity|]);
    rewrite calls_app Hcalls /calls /=; lia.
Qed.

Lemma retry_loop_starts_with_call (remaining attempt : nat)
      (le : option string) (w : World) :
  ∃ r post w',
    retry_loop self api_call identifier (S remaining) attempt le w
    = (r, Call :: post, w').
Proof.
  simpl. destruct (api_call w) as [o w1].
  destruct (attempt_body self identifier attempt o) as [[[r|] le'] evs].
  - by eexists _, _, _.
  - destruct (retry_loop _ _ _ _ _ _ _) as [[r evs'] w2]. by eexists _, _, _.
Qed.

(** C6: when an attempt raises a transport-level error and attempts remain,
    the call sleeps before the next attempt: for [retry_delay * (attempt + 1)]
    if the text contains "429" or, in any letter case, "too many requests",
    and for the flat [retry_delay] otherwise. Attempts are counted from 0. *)
Theorem transport_error_backoff
        (k : nat) (w wk w1 : World) (os : list outcome) (e : string) :
  call_sequence api_call k w = (os, wk) →
  Forall (λ o, is_Some (retryable_failure o)) os →
  (S k < max_retries self)%nat →
  api_call wk = (Raises e, w1) →
  ∃ pre logs post r w',
    _make_api_call_with_retry self api_call identifier w
    = (r, pre ++ Call :: logs
            ++ Sleep (if contains "429" e || contains "too many requests" (lower e)
                      then retry_delay self * (Z.of_nat k + 1)
                      else retry_delay self)
            :: Call :: post, w')
    ∧ calls pre = k
    ∧ forallb is_log logs = true.
Proof.
  intros Hseq Hos Hk Hw.
  rewrite (make_api_call_prefix k w wk os) //; [lia|].
  destruct (max_retries self - k)%nat as [|[|rem]] eqn:Hrem; [lia..|].
  set (c := if rate_limited e then RateLimit else TransportError).
  assert (attempts_remain self k = true) as Hremain
      by (apply attempts_remain_lt; lia).
  rewrite (retry_loop_retry self identifier api_call _ _ _ _ _ _ c Hw) //.
  destruct (attempt_body_retry self identifier k (Raises e) c)
    as (logs & -> & Hlogs & _); [done..|].
  destruct (retry_loop_starts_with_call rem (S k)
              (Some (error_message (Raises e))) w1) as (r & post & w' & ->).
  exists (retried_events self identifier 0 os), logs, post, r, w'.
  split; [|split; [|done]].
  - rewrite /= -!app_assoc /=. do 4 f_equal.
    rewrite /c /backoff /rate_limited. by destruct (_ || _).
  - rewrite retried_events_calls //;
      rewrite (call_sequence_length api_call k w wk os) //. lia.
Qed.

Lemma attempt_body_final (attempt : nat) (o : outcome) :
  retryable_failure o = None →
  ∃ r le, attempt_body self identifier attempt o = (Return r, le, []).
Proof.
  destruct o as [e|response]; simpl; [done|].
  destruct (not_response response); [done|].
  destruct (default ∅ response !! "success") as [flag|]; [|by eexists _, _].
  destruct (truthy flag); simpl; [by eexists _, _|].
  destruct (get_or _ _ _) as [| | |m| |]; try done.
  destruct (contains "not found" _ || _); [by eexists _, _|done].
Qed.

(** The lines an attempt logs: one, on attempt 0 only, when a callback is
    installed, an attempt is left and the failure is retryable and not an
    empty response. *)
Lemma attempt_body_log_lines (attempt : nat) (o : outcome) :
  length (log_lines (attempt_body self identifier attempt o).2)
  = if bool_decide (attempt = 0%nat) && log_callback self
       && attempts_remain self attempt
       && match retryable_failure o with
          | Some c => bool_decide (c ≠ EmptyResponse)
          | None => false
          end
    then 1%nat else 0%nat.
Proof.
  destruct (retryable_failure o) as [c|] eqn:Hc.
  - destruct (attempts_remain self attempt) eqn:Hrem.
    + destruct (attempt_body_retry self identifier attempt o c Hc Hrem)
        as (logs & -> & Hlogs & Hlen).
      rewrite /= log_lines_app /= app_nil_r log_lines_length // Hlen.
      by rewrite andb_true_r.
    + rewrite (attempt_body_last self identifier attempt o c Hc Hrem).
      rewrite andb_false_r /=. by destruct c.
  - destruct (attempt_body_final attempt o Hc) as (r & le & ->).
    by rewrite andb_false_r.
Qed.

Lemma retry_loop_later_no_log (remaining : nat) :
  ∀ (attempt : nat) (le : option string) (w : World),
    attempt ≠ 0%nat →
    log_lines (retry_loop self api_call identifier remaining attempt le w).1.2 = [].
Proof.
  induction remaining as [|remaining IH]; intros attempt le w Hne; [done|].
  simpl. destruct (api_call w) as [o w1].
  pose proof (attempt_body_log_lines attempt o) as Hlen.
  rewrite bool_decide_eq_false_2 //= in Hlen.
  apply nil_length_inv in Hlen.
  destruct (attempt_body self identifier attempt o) as [[[r|] le'] evs];
    simpl in *; [done|].
  specialize (IH (S attempt) le' w1 ltac:(lia)).
  destruct (retry_loop _ _ _ _ _ _ _) as [[r evs'] w2]. simpl in *.
  by rewrite log_lines_app Hlen IH.
Qed.

(** C9, as amended: a call logs through the callback on its first attempt
    only (attempt 0), and only when that attempt fails with a retryable
    explicit failure, a rate-limit error or another transport error while
    a further attempt is left; an empty response logs nothing, and no
    attempt after the first logs, whatever its failure category. A call
    therefore logs one line or none. *)
Theorem log_only_on_first_attempt (w : World) :
  length (log_lines (_make_api_call_with_retry self api_call identifier w).1.2)
  = (if log_callback self && bool_decide (1 < max_retries self)%nat
        && match retryable_failure (api_call w).1 with
           | Some c => bool_decide (c ≠ EmptyResponse)
           | None => false
           end
     then 1 else 0)%nat
  ∧ ∀ (remaining attempt : nat) (le : option string) (w' : World),
      attempt ≠ 0%nat →
      log_lines (retry_loop self api_call identifier remaining attempt le w').1.2
      = [].
Proof.
  split; [|intros; by apply retry_loop_later_no_log].
  rewrite /_make_api_call_with_retry.
  destruct (max_retries self) as [|n] eqn:Hmax.
  { by rewrite andb_false_r. }
  simpl. destruct (api_call w) as [o w1]. simpl.
  assert (attempts_remain self 0 = bool_decide (1 < S n)%nat) as Hrem.
  { rewrite /attempts_remain Hmax.
    case_bool_decide; [apply Z.ltb_lt|apply Z.ltb_ge]; lia. }
  pose proof (attempt_body_log_lines 0 o) as Hlen.
  rewrite Hrem /= in Hlen.
  destruct (attempt_body self identifier 0 o) as [[[r|] le'] evs];
    simpl in *; [done|].
  pose proof (retry_loop_later_no_log n 1 le' w1 ltac:(lia)) as Hlater.
  destruct (retry_loop _ _ _ _ _ _ _) as [[r evs'] w2]. simpl in *.
  by rewrite log_lines_app Hlater app_nil_r.
Qed.
End retry_claims.

Lemma terminal_failure_fails_immediately_witness :
  ∃ evs,
    Client._make_api_call_with_retry client3 busy_then_gone "alice" 0%nat
    = (Client.Failure "Profile Not Found", evs, 2%nat)
    ∧ Client.calls evs = 2%nat
    ∧ last evs = Some Client.Call.
Proof.
  apply (terminal_failure_fails_immediately client3 "alice" busy_then_gone
           1 0%nat 1%nat 2%nat [Client.Raises "503 Service Unavailable"]
           (Client.Returns (Some {[ "success" := VBool false;
                                    "message" := VStr "Profile Not Found" ]}))
           "Profile Not Found").
  - reflexivity.
  - repeat constructor. by eexists.
  - simpl. lia.
  - reflexivity.
  - eexists _, (VBool false). repeat split.
  - exists "not found". split; [set_solver|].
    by exists "Profile ", "Not Found", "".
Defined.

Lemma exhausted_retries_error_witness :
  ∃ evs,
    Client._make_api_call_with_retry client1 always_rate_limited "alice" 0%nat
    = (Client.Failure
         (Client.reported_error (Client.Raises "429 Too Many Requests")), evs, 1%nat)
    ∧ Client.calls evs = Client.max_retries client1.
Proof.
  apply (exhausted_retries_error client1 "alice" always_rate_limited
           0%nat 1%nat [] (Client.Raises "429 Too Many Requests")).
  - reflexivity.
  - repeat constructor. by eexists.
Defined.

(** C5 as stated fails: with one attempt allowed and a rate-limit error on
    it, the call reports "Rate limit exceeded", not the message of the
    attempt. *)
Lemma exhausted_retries_rate_limit_counterexample :
  (Client.call_sequence always_rate_limited (Client.max_retries client1) 0%nat).1
  = [Client.Raises "429 Too Many Requests"]
  ∧ Client.retryable_failure (Client.Raises "429 Too Many Requests")
    = Some Client.RateLimit
  ∧ (Client._make_api_call_with_retry client1 always_rate_limited "alice" 0%nat).1.1
    = Client.Failure "Rate limit exceeded"
  ∧ (Client._make_api_call_with_retry client1 always_rate_limited "alice" 0%nat).1.1
    ≠ Client.Failure (Client.error_message (Client.Raises "429 Too Many Requests")).
Proof. by repeat split. Qed.

Lemma transport_error_backoff_witness :
  ∃ pre logs post r w',
    Client._make_api_call_with_retry client3 limited_then_ok "alice" 0%nat
    = (r, pre ++ Client.Call :: logs
            ++ Client.Sleep (if contains "429" "HTTP 429"
                                || contains "too many requests" (lower "HTTP 429")
                             then Client.retry_delay client3 * (Z.of_nat 0 + 1)
                             else Client.retry_delay client3)
            :: Client.Call :: post, w')
    ∧ Client.calls pre = 0%nat
    ∧ forallb Client.is_log logs = true.
Proof.
  apply (transport_error_backoff client3 "alice" limited_then_ok
           0 0%nat 0%nat 1%nat [] "HTTP 429").
  - reflexivity.
  - constructor.
  - simpl. lia.
  - reflexivity.
Defined.

(** C9 as stated fails: a call whose attempts all return an empty response is
    retried twice and logs nothing. *)
Lemma empty_response_logs_nothing_counterexample :
  Client.retryable_failure (Client.Returns None) = Some Client.EmptyResponse
  ∧ Client.log_callback client3 = true
  ∧ Client.calls (Client._make_api_call_with_retry client3 always_empty "alice" 0%nat).1.2
    = 3%nat
  ∧ Client.log_lines
      (Client._make_api_call_with_retry client3 always_empty "alice" 0%nat).1.2
    = [].
Proof. by repeat split. Qed.

(** ** The endpoints *)

Section endpoint_claims.
Import Client.
Context {World : Type} (self : LeadsAPIClient) (api : AsyncLinkdAPI World).

Lemma truthy_get_present (d : dict) (k : string) :
  truthy (get d k) = true ↔ ∃ v, d !! k = Some v ∧ truthy v = true.
Proof.
  rewrite /get. destruct (d !! k) as [v|]; simpl.
  - split; [by exists v|by intros (? & [= ->] & ?)].
  - split; [done|by intros (? & ? & ?)].
Qed.

(** C7, as amended: after a successful retried call, a payload that is a
    non-empty object lacking a non-empty identity key or a non-empty handle
    makes the fetch fail with "Invalid profile data structure"; a missing
    or empty payload makes it fail with "No data in response"; no failure
    carries a profile, and a profile is returned exactly when the payload
    holds both a non-empty identity key and a non-empty handle. *)
Theorem full_profile_validation
        (username : string) (w w' : World) (response : dict)
        (evs : list event) :
  _make_api_call_with_retry self (api_get_full_profile api username) username w
  = (Success response, evs, w') →
  let result := (get_full_profile self api username w).1.1 in
  (∀ profile_data,
      response !! "data" = Some (VDict profile_data) → profile_data ≠ ∅ →
      truthy (get profile_data "urn") = false
      ∨ truthy (get profile_data "username") = false →
      result = (false, None, Some "Invalid profile data structure"))
  ∧ (response !! "data" = None ∨ response !! "data" = Some (VDict ∅) →
     result = (false, None, Some "No data in response"))
  ∧ (∀ profile_data,
        result = (true, Some profile_data, None)
        ↔ response !! "data" = Some (VDict profile_data)
          ∧ (∃ urn, profile_data !! "urn" = Some urn ∧ truthy urn = true)
          ∧ (∃ handle, profile_data !! "username" = Some handle
                       ∧ truthy handle = true))
  ∧ (result.1.1 = false → result.1.2 = None).
Proof.
  intros Hcall. rewrite /get_full_profile Hcall. cbn zeta.
  split; [|split; [|split]].
  - intros profile_data -> Hne Hlack. simpl.
    rewrite bool_decide_eq_false_2 //.
    by destruct Hlack as [-> | ->]; rewrite ?orb_true_r.
  - intros [-> | ->]; [done|]. simpl. by rewrite bool_decide_eq_true_2.
  - intros profile_data. rewrite -!truthy_get_present. split.
    + destruct (response !! "data") as [[| | | | |d]|]; simpl; try done.
      case_bool_decide; [done|].
      destruct (truthy (get d "urn")) eqn:Hurn; [|done].
      destruct (truthy (get d "username")) eqn:Huser; [|done].
      simpl. by intros [= <-].
    + intros (-> & Hurn & Huser). simpl.
      rewrite Hurn Huser /= bool_decide_eq_false_2 //.
      intros ->. by rewrite /get lookup_empty in Hurn.
  - destruct (response !! "data") as [[| | | | |d]|]; simpl; try done.
    case_bool_decide; [done|].
    by destruct (negb _ || negb _).
Qed.

(** C8: the batch fetcher returns one outcome per handle, in the order of
    the handles; each outcome is what the full-profile fetch of its handle
    gives, whether the fetches before it failed or not. *)
Theorem batch_one_outcome_per_handle (usernames : list string) (w : World) :
  Forall2
    (λ username r,
       ∃ wi, r = (username,
                  (get_full_profile self api username wi).1.1.1.1,
                  (get_full_profile self api username wi).1.1.1.2,
                  (get_full_profile self api username wi).1.1.2))
    usernames (get_full_profiles_batch self api usernames w).1.1
  ∧ (get_full_profiles_batch self api usernames w).1.1.*1.*1.*1 = usernames.
Proof.
  revert w. induction usernames as [|username rest IH]; intros w.
  { split; [constructor|done]. }
  simpl. rewrite /fetch_one.
  destruct (get_full_profile self api username w) as [[[[ok p] e] evs] w1] eqn:H1.
  specialize (IH w1).
  destruct (get_full_profiles_batch self api rest w1) as [[results evs'] w2].
  simpl in *. destruct IH as [IH1 IH2]. split.
  - constructor; [|done]. exists w. by rewrite H1.
  - by f_equal.
Qed.
End endpoint_claims.

(** C7 as stated fails: a successful response with an empty payload lacks an
    identity key, and the fetch fails with "No data in response". *)
Lemma full_profile_empty_payload_counterexample :
  (Client._make_api_call_with_retry
     client3 (Client.api_get_full_profile api_empty_payload "alice") "alice" 0%nat).1.1
  = Client.Success {[ "success" := VBool true; "data" := VDict ∅ ]}
  ∧ truthy (get (∅ : dict) "urn") = false
  ∧ (Client.get_full_profile client3 api_empty_payload "alice" 0%nat).1.1
    = (false, None, Some "No data in response").
Proof. by repeat split. Qed.

Lemma full_profile_validation_witness :
  let result := (Client.get_full_profile client3 api_alice_only "alice" 0%nat).1.1 in
  (∀ profile_data,
      ({[ "success" := VBool true;
          "data" := VDict {[ "urn" := VStr "A"; "username" := VStr "alice" ]} ]}
         : dict) !! "data" = Some (VDict profile_data) → profile_data ≠ ∅ →
      truthy (get profile_data "urn") = false
      ∨ truthy (get profile_data "username") = false →
      result = (false, None, Some "Invalid profile data structure"))
  ∧ result = (true, Some {[ "urn" := VStr "A"; "username" := VStr "alice" ]}, None).
Proof.
  pose proof (full_profile_validation client3 api_alice_only "alice" 0%nat 1%nat
                {[ "success" := VBool true;
                   "data" := VDict {[ "urn" := VStr "A"; "username" := VStr "alice" ]} ]}
                [Client.Call] eq_refl) as (H1 & _ & _ & _).
  split; [exact H1|reflexivity].
Defined.

(** ** CSV export *)

Section csv_claims.
Import CsvExport.

Lemma elem_of_all_keys (flattened_profiles : list dict) (key : string) :
  key ∈ all_keys flattened_profiles
  ↔ ∃ profile, profile ∈ flattened_profiles ∧ is_Some (profile !! key).
Proof.
  rewrite /all_keys elem_of_union_list. split.
  - intros (X & HX & Hkey). apply list_elem_of_fmap in HX as (profile & -> & Hin).
    exists profile. split; [done|]. by apply elem_of_dom.
  - intros (profile & Hin & Hsome). exists (dom profile). split.
    + apply list_elem_of_fmap. by exists profile.
    + by apply elem_of_dom.
Qed.

Lemma any_value_spec (flattened_profiles : list dict) (key : string) :
  any_value flattened_profiles key = true
  ↔ ∃ profile, profile ∈ flattened_profiles ∧ truthy (get profile key) = true.
Proof.
  rewrite /any_value existsb_exists.
  by setoid_rewrite list_elem_of_In.
Qed.

Lemma elem_of_fieldnames (flattened_profiles : list dict) (key : string) :
  key ∈ fieldnames flattened_profiles
  ↔ ∃ profile, profile ∈ flattened_profiles ∧ truthy (get profile key) = true.
Proof.
  rewrite /fieldnames merge_sort_Permutation elem_of_elements /non_empty_keys.
  rewrite elem_of_filter any_value_spec elem_of_all_keys. split.
  - by intros [H _].
  - intros (profile & Hin & Htrue). split; exists profile; split; try done.
    rewrite /get in Htrue. by destruct (profile !! key).
Qed.

(** C10, as amended: in the CSV written for a non-empty list of records, a
    flattened field is a column exactly when its value is truthy in at least
    one record. A field whose value is falsy in every record (missing,
    [None], empty text, and also the number 0 and [False]) is omitted. The
    columns are sorted and distinct. *)
Theorem csv_columns (profiles : list dict) :
  profiles ≠ [] →
  ∃ columns rows,
    export_to_csv profiles = Some (columns, rows)
    ∧ (∀ key, key ∈ columns
              ↔ ∃ profile, profile ∈ profiles
                           ∧ truthy (get (flatten_profile profile) key) = true)
    ∧ Sorted (≤)%string columns
    ∧ NoDup columns
    ∧ length rows = length profiles.
Proof.
  intros Hne. rewrite /export_to_csv bool_decide_eq_false_2 //.
  eexists _, _. split; [done|]. split; [|split; [|split]].
  - intros key. rewrite elem_of_fieldnames. split.
    + intros (flat & Hin & Htrue).
      apply list_elem_of_fmap in Hin as (profile & -> & Hin). by exists profile.
    + intros (profile & Hin & Htrue). exists (flatten_profile profile).
      split; [|done]. apply list_elem_of_fmap. by exists profile.
  - apply Sorted_merge_sort. apply _.
  - rewrite /fieldnames merge_sort_Permutation. apply NoDup_elements.
  - by rewrite !length_fmap.
Qed.
End csv_claims.

Lemma csv_columns_witness :
  ∃ columns rows,
    CsvExport.export_to_csv [seed_record] = Some (columns, rows)
    ∧ (∀ key, key ∈ columns
              ↔ ∃ profile, profile ∈ [seed_record]
                           ∧ truthy (get (CsvExport.flatten_profile profile) key) = true)
    ∧ Sorted (≤)%string columns
    ∧ NoDup columns
    ∧ length rows = length [seed_record].
Proof. apply (csv_columns [seed_record]). done. Defined.

(** C10 as stated fails: the depth of a seed record is the number 0, a value
    that is present and not empty, and the CSV has no [depth_level] column. *)
Lemma csv_zero_depth_counterexample :
  CsvExport.flatten_profile seed_record !! "depth_level" = Some (VInt 0)
  ∧ CsvExport.is_empty (VInt 0) = false
  ∧ CsvExport.export_to_csv [seed_record]
    = Some (["urn"; "username"], [[VStr "A"; VStr "alice"]]).
Proof. split; [|split]; by vm_compute. Qed.

(** ** Tree discovery *)

Section discovery_facts.
Import Client Discovery.
Context {World : Type} (client : LeadsAPIClient) (api : AsyncLinkdAPI World).
Context (max_depth : Z).

(** *** What leaves the list of records alone *)

Lemma discovered_add_log (message : string) (self : ProfileTreeDiscovery) :
  discovered_profiles (_add_log message self) = discovered_profiles self.
Proof. done. Qed.

Lemma discovered_callback_logs (evs : list event) (self : ProfileTreeDiscovery) :
  discovered_profiles (callback_logs evs self) = discovered_profiles self.
Proof.
  rewrite /callback_logs. revert self.
  induction (log_lines evs) as [|line lines IH]; intros self; [done|].
  by rewrite /= IH.
Qed.

Lemma discovered_mark_similar (similar_profiles : list dict) :
  ∀ (usernames_to_fetch : list string) (self : ProfileTreeDiscovery),
    discovered_profiles (mark_similar similar_profiles usernames_to_fetch self).2
    = discovered_profiles self.
Proof.
  induction similar_profiles as [|similar rest IH]; intros us self; [done|].
  simpl. destruct (_ && _); by rewrite IH.
Qed.

(** *** The forest grows at its end *)

Lemma forest_nil : forest [].
Proof. intros i r H. by rewrite lookup_nil in H. Qed.

Lemma forest_snoc (records : list dict) (r : dict) :
  forest records →
  seed_record_shape r ∨ (∃ p, p ∈ records ∧ discovered_by p r) →
  forest (records ++ [r]).
Proof.
  intros Hforest Hr i r' Hi.
  destruct (decide (i < length records)%nat) as [Hlt|Hge].
  - rewrite lookup_app_l // in Hi.
    destruct (Hforest i r' Hi) as [?|(j & p & Hj & Hp & Hby)]; [by left|].
    right. exists j, p. split; [done|]. split; [|done].
    rewrite lookup_app_l //. by apply lookup_lt_Some in Hp.
  - rewrite lookup_app_r in Hi; [lia|].
    apply list_lookup_singleton_Some in Hi as [Hi <-].
    destruct Hr as [?|(p & Hp & Hby)]; [by left|].
    right. apply list_elem_of_lookup in Hp as [j Hj].
    exists j, p. split; [|split; [|done]].
    + apply lookup_lt_Some in Hj. lia.
    + rewrite lookup_app_l //. by apply lookup_lt_Some in Hj.
Qed.

Lemma frontier_item_mono (records more : list dict) (f : dict) :
  frontier_item records f → frontier_item (records ++ more) f.
Proof.
  intros (key & n & p & ? & ? & ? & Hp & ? & ?).
  exists key, n, p. repeat split; try done. apply elem_of_app. by left.
Qed.

Lemma task_inv_mono (records more : list dict) (t : task) :
  task_inv records t → task_inv (records ++ more) t.
Proof.
  destruct t; simpl; try apply frontier_item_mono.
  intros H. eapply Forall_impl; [exact H|]. intros f. apply frontier_item_mono.
Qed.

(** *** Records and frontier items made by the engine *)

Lemma saved_record_urn (profile : dict) (depth_level : value) :
  saved_record profile depth_level !! "urn" = profile !! "urn".
Proof. by rewrite /saved_record lookup_delete_ne // lookup_insert_ne. Qed.

Lemma saved_record_source (profile : dict) (depth_level : value) :
  saved_record profile depth_level !! "source_urn" = profile !! "source_urn".
Proof. by rewrite /saved_record lookup_delete_ne // lookup_insert_ne. Qed.

Lemma saved_record_depth_level (profile : dict) (depth_level : value) :
  saved_record profile depth_level !! "depth_level" = Some depth_level.
Proof. by rewrite /saved_record lookup_delete_ne // lookup_insert_eq. Qed.

(** Saving the seeds at level 0. *)
Lemma save_batch_spec (current_batch : list dict) :
  ∀ self : ProfileTreeDiscovery,
    Forall seed_item current_batch →
    forest (discovered_profiles self) →
    forest (discovered_profiles (save_batch current_batch self))
    ∧ Forall (frontier_item (discovered_profiles (save_batch current_batch self)))
             current_batch
    ∧ ∃ more, discovered_profiles (save_batch current_batch self)
              = discovered_profiles self ++ more.
Proof.
  induction current_batch as [|f rest IH]; intros self Hseeds Hforest.
  { split; [done|]. split; [constructor|]. exists []. by rewrite app_nil_r. }
  apply Forall_cons in Hseeds as [(Hdepth & Hsource & [key Hurn]) Hrest].
  simpl. rewrite bool_decide_eq_true_2; [by rewrite Hurn|].
  set (r := saved_record f (get_or f "depth" (VInt 0))).
  destruct (IH (_add_discovered_profile r self) Hrest) as (Hf & Hfront & more & Hmore).
  { apply forest_snoc; [done|]. left. split.
    - by rewrite saved_record_depth_level /get_or Hdepth.
    - by rewrite saved_record_source. }
  split; [done|]. split.
  - constructor; [|done]. rewrite Hmore. apply frontier_item_mono.
    exists key, 0, r. repeat split; try done.
    + simpl. apply elem_of_app. right. by apply list_elem_of_singleton.
    + by rewrite saved_record_urn.
    + by rewrite saved_record_depth_level /get_or Hdepth.
  - exists (r :: more). by rewrite Hmore /= -app_assoc.
Qed.
(** *** What the client hands to the engine *)

Lemma get_full_profile_success (c : LeadsAPIClient) (username : string)
      (w : World) (p : dict) (e : option string) :
(get_full_profile c api username w).1.1 = (true, Some p, e) →
is_Some (p !! "urn").
Proof.
rewrite /get_full_profile.
destruct (_make_api_call_with_retry _ _ _ _) as [[[err|response] evs] w']; [done|].
destruct (response !! "data") as [[| | | | |d]|]; simpl; try done.
case_bool_decide; [done|].
destruct (truthy (get d "urn")) eqn:Hurn; [|done].
destruct (truthy (get d "username")); [|done].
simpl. intros [= <- _]. rewrite /get in Hurn.
by destruct (d !! "urn").
Qed.

Lemma batch_success (c : LeadsAPIClient) (usernames : list string) :
∀ w : World,
  Forall (λ r, ∀ p, r.1.1.2 = true → r.1.2 = Some p → is_Some (p !! "urn"))
         (get_full_profiles_batch c api usernames w).1.1.
Proof.
induction usernames as [|username rest IH]; intros w; [constructor|].
simpl. rewrite /fetch_one.
destruct (get_full_profile c api username w) as [[[[ok p] e] evs] w1] eqn:H1.
specialize (IH w1).
destruct (get_full_profiles_batch c api rest w1) as [[results evs'] w2].
simpl in *. constructor; [|done].
simpl. intros p' -> ->.
apply (get_full_profile_success c username w p' e). by rewrite H1.
Qed.

(** Saving the full profiles fetched for a frontier item. *)
Lemma save_fetched_spec (key : value) (n : Z)
      (results : list (string * bool * option dict * option string)) :
∀ (new_profiles : list dict) (self : ProfileTreeDiscovery),
  0 ≤ n →
  (∃ p, p ∈ discovered_profiles self ∧ p !! "urn" = Some key
        ∧ p !! "depth_level" = Some (VInt n)) →
  Forall (λ r, ∀ p, r.1.1.2 = true → r.1.2 = Some p → is_Some (p !! "urn")) results →
  forest (discovered_profiles self) →
  Forall (frontier_item (discovered_profiles self)) new_profiles →
  forest (discovered_profiles (save_fetched key n results new_profiles self).2)
  ∧ Forall (frontier_item (discovered_profiles
                             (save_fetched key n results new_profiles self).2))
           (save_fetched key n results new_profiles self).1
  ∧ ∃ more, discovered_profiles (save_fetched key n results new_profiles self).2
            = discovered_profiles self ++ more.
Proof.
induction results as [|[[[username ok] fp] e] rest IH];
  intros new_profiles self Hn Hparent Hres Hforest Hnew.
{ split; [done|]. split; [done|]. exists []. by rewrite app_nil_r. }
apply Forall_cons in Hres as [Hurn Hrest]. simpl in Hurn.
cbn [save_fetched].
destruct (ok && truthy (VDict (default ∅ fp))) eqn:Hok;
  [|by apply (IH new_profiles (_add_log _ self))].
apply andb_true_iff in Hok as [-> Hfp].
destruct fp as [fp|]; [|done]. simpl.
destruct (Hurn fp eq_refl eq_refl) as [key' Hkey'].
set (full := <["source_urn" := key]> (<["depth" := VInt (n + 1)]> fp)).
assert (get full "depth" = VInt (n + 1)) as Hdepth.
{ by rewrite /get /full lookup_insert_ne // lookup_insert_eq. }
rewrite Hdepth.
set (r := saved_record full (VInt (n + 1))).
assert (full !! "urn" = Some key') as Hfull_urn.
{ by rewrite /full !lookup_insert_ne. }
destruct Hparent as (p & Hp & Hp_urn & Hp_depth).
destruct (IH (new_profiles ++ [full]) (_add_discovered_profile r self))
  as (Hf & Hfront & more & Hmore); try done.
- exists p. split; [|done]. simpl. apply elem_of_app. by left.
- apply forest_snoc; [done|]. right. exists p. split; [done|].
  exists key, n. repeat split; try done.
  + by rewrite saved_record_source /full lookup_insert_eq.
  + by rewrite saved_record_depth_level.
- apply Forall_app. split.
  + eapply Forall_impl; [exact Hnew|]. intros f. apply frontier_item_mono.
  + apply Forall_singleton. exists key', (n + 1), r. repeat split.
    * done.
    * by rewrite /full lookup_insert_ne // lookup_insert_eq.
    * lia.
    * simpl. apply elem_of_app. right. by apply list_elem_of_singleton.
    * by rewrite saved_record_urn.
    * by rewrite saved_record_depth_level.
- split; [done|]. split; [done|].
  exists (r :: more). by rewrite Hmore /= -app_assoc.
Qed.
(** *** The two halves of [process_profile] *)

Lemma process_profile_lookup_spec (f : dict) (self : ProfileTreeDiscovery)
      (w : World) :
frontier_item (discovered_profiles self) f →
discovered_profiles (process_profile_lookup client api f self w).1.2
= discovered_profiles self
∧ task_inv (discovered_profiles self)
           (process_profile_lookup client api f self w).1.1.
Proof.
intros Hf. rewrite /process_profile_lookup.
destruct (get_similar_profiles _ _ _ _) as [[[[ok similar] e] evs] w'].
destruct ok; simpl; [|split; [by rewrite discovered_callback_logs|done]].
pose proof (discovered_mark_similar similar [] (callback_logs evs self)) as Hmark.
destruct (mark_similar similar [] (callback_logs evs self)) as [us self'].
simpl in Hmark. rewrite discovered_callback_logs in Hmark.
case_bool_decide; simpl; split; try done.
Qed.

Lemma process_profile_fetch_spec (f : dict) (usernames_to_fetch : list string)
      (self : ProfileTreeDiscovery) (w : World) :
frontier_item (discovered_profiles self) f →
forest (discovered_profiles self) →
forest (discovered_profiles
          (process_profile_fetch client api f usernames_to_fetch self w).1.2)
∧ task_inv (discovered_profiles
              (process_profile_fetch client api f usernames_to_fetch self w).1.2)
           (process_profile_fetch client api f usernames_to_fetch self w).1.1
∧ ∃ more,
    discovered_profiles
      (process_profile_fetch client api f usernames_to_fetch self w).1.2
    = discovered_profiles self ++ more.
Proof.
intros (key & n & p & Hurn & Hdepth & Hn & Hp & Hp_urn & Hp_depth) Hforest.
rewrite /process_profile_fetch.
pose proof (batch_success (api_client client) usernames_to_fetch w) as Hres.
destruct (get_full_profiles_batch _ _ _ _) as [[results evs] w'].
simpl in Hres.
assert (get f "urn" = key) as -> by by rewrite /get Hurn.
assert (int (get_or f "depth" (VInt 0)) = n) as -> by by rewrite /get_or Hdepth.
destruct (save_fetched_spec key n results [] (callback_logs evs self))
  as (Hf & Hfront & more & Hmore); try done.
{ exists p. by rewrite discovered_callback_logs. }
{ by rewrite discovered_callback_logs. }
rewrite discovered_callback_logs in Hmore.
destruct (save_fetched key n results [] (callback_logs evs self))
  as [new_profiles self'].
simpl in *. case_bool_decide; simpl; (split; [done|]); (split; [done|]);
  by exists more.
Qed.

(** Resuming a coroutine keeps what the gather needs. *)
Lemma resume_spec (tasks : list task) :
∀ (i : nat) (self : ProfileTreeDiscovery) (w : World),
  forest (discovered_profiles self) →
  Forall (task_inv (discovered_profiles self)) tasks →
  forest (discovered_profiles (resume client api i tasks self w).1.2)
  ∧ Forall (task_inv (discovered_profiles (resume client api i tasks self w).1.2))
           (resume client api i tasks self w).1.1
  ∧ ∃ more, discovered_profiles (resume client api i tasks self w).1.2
            = discovered_profiles self ++ more.
Proof.
induction tasks as [|t rest IH]; intros i self w Hforest Htasks.
{ split; [done|]. split; [done|]. exists []. by rewrite app_nil_r. }
apply Forall_cons in Htasks as [Ht Hrest].
assert (∀ j,
  let res := resume client api j rest self w in
  forest (discovered_profiles res.1.2)
  ∧ Forall (task_inv (discovered_profiles res.1.2)) (t :: res.1.1)
  ∧ ∃ more, discovered_profiles res.1.2 = discovered_profiles self ++ more)
  as Hskip.
{ intros j. destruct (IH j self w Hforest Hrest) as (Hf & Hts & more & Hmore).
  split; [done|]. split; [|by exists more].
  constructor; [|done]. rewrite Hmore. by apply task_inv_mono. }
destruct t as [f|f us|new_profiles], i as [|i]; cbn [resume].
- pose proof (process_profile_lookup_spec f self w Ht) as [Hdisc Ht'].
  destruct (process_profile_lookup client api f self w) as [[t' self'] w'].
  simpl in *. rewrite Hdisc. split; [done|]. split; [by constructor|].
  exists []. by rewrite app_nil_r.
- specialize (Hskip i).
  destruct (resume client api i rest self w) as [[rest' self'] w']. done.
- pose proof (process_profile_fetch_spec f us self w Ht Hforest)
    as (Hf & Ht' & more & Hmore).
  destruct (process_profile_fetch client api f us self w) as [[t' self'] w'].
  simpl in *. split; [done|]. split; [|by exists more].
  constructor; [done|]. rewrite Hmore.
  eapply Forall_impl; [exact Hrest|]. intros t. apply task_inv_mono.
- specialize (Hskip i).
  destruct (resume client api i rest self w) as [[rest' self'] w']. done.
- specialize (Hskip 0%nat).
  destruct (resume client api 0 rest self w) as [[rest' self'] w']. done.
- specialize (Hskip (S i)).
  destruct (resume client api (S i) rest self w) as [[rest' self'] w']. done.
Qed.
(** *** The invariant of a run *)

Lemma seed_iteration_spec (username : string) (starting_urns : list dict)
      (self : ProfileTreeDiscovery) (w : World) :
Forall seed_item starting_urns →
discovered_profiles (seed_iteration client api username starting_urns self w).1.2
= discovered_profiles self
∧ Forall seed_item (seed_iteration client api username starting_urns self w).1.1.
Proof.
intros Hseeds. rewrite /seed_iteration.
destruct (get_full_profile _ _ _ _) as [[[[ok pd] e] evs] w'].
destruct (ok && _); simpl; [|by rewrite discovered_callback_logs].
destruct (bool_decide (text _ ≠ "")) eqn:Hurn; simpl;
  [|by rewrite discovered_callback_logs].
apply bool_decide_eq_true in Hurn.
destruct (bool_decide (_ ∉ _)); simpl; rewrite discovered_callback_logs; [|done].
split; [done|]. apply Forall_app. split; [done|]. apply Forall_singleton.
split; [|split].
- by rewrite lookup_insert_ne // lookup_insert_eq.
- by rewrite lookup_insert_eq.
- rewrite !lookup_insert_ne //.
  rewrite /get in Hurn. by destruct (default ∅ pd !! "urn").
Qed.

Lemma task_results_frontier (records : list dict) (tasks : list task) :
Forall (task_inv records) tasks →
Forall (frontier_item records) (concat (task_result <$> tasks)).
Proof.
induction 1 as [|t tasks Ht _ IH]; [constructor|].
rewrite fmap_cons /=. apply Forall_app. split; [|done].
by destruct t.
Qed.

Lemma Forall_filter_keep {A : Type} (P Q : A → Prop) `{∀ x, Decision (Q x)}
      (l : list A) :
Forall P l → Forall P (filter Q l).
Proof.
rewrite !Forall_forall. intros HP x Hx.
apply list_elem_of_filter in Hx as [_ Hx]. by apply HP.
Qed.

Lemma start_inv (usernames : list string) (w : World) :
machine_inv (start max_depth usernames w).
Proof. split; [apply forest_nil|]. by split. Qed.

Lemma step_inv (choice : nat) (m : machine) :
machine_inv m → machine_inv (step client api max_depth choice m).
Proof.
destruct m as [self w [[|username rest] starting|queue level|tasks queue level|]];
  rewrite /machine_inv /step; cbn [self_of world_of at_pc];
  intros [Hforest Hpc]; simpl in Hpc.
- (* the seed loop is over *)
  destruct Hpc as [Hnil Hseeds]. case_bool_decide; [done|].
  split; [done|]. left. split; [done|]. split; [done|].
  apply Forall_fmap. eapply Forall_impl; [exact Hseeds|]. by intros f.
- (* one seed *)
  destruct Hpc as [Hnil Hseeds].
  pose proof (seed_iteration_spec username starting self w Hseeds) as [Hdisc Hst].
  destruct (seed_iteration client api username starting self w) as [[st self'] w'].
  simpl in *. rewrite Hdisc. by split.
- (* top of the while loop *)
  case_bool_decide; [done|].
  set (batch := fst <$> filter (λ item, item.2 = level) queue).
  set (remaining := filter (λ item, item.2 ≠ level) queue).
  destruct Hpc as [(-> & Hnil & Hseeds)|[Hlevel Hqueue]].
  + (* level 0: the queue holds the seeds *)
    assert (filter (λ item : dict * Z, item.2 = 0) queue = queue) as Hall.
    { clear -Hseeds. induction Hseeds as [|item queue [_ Hd] _ IH]; [done|].
      by rewrite filter_cons_True // IH. }
    assert (remaining = []) as ->.
    { rewrite /remaining. clear -Hseeds.
      induction Hseeds as [|item queue [_ Hd] _ IH]; [done|].
      by rewrite filter_cons_False // => ?. }
    assert (Forall seed_item batch) as Hbatch.
    { rewrite /batch Hall. apply Forall_fmap.
      eapply Forall_impl; [exact Hseeds|]. by intros f [??]. }
    case_bool_decide as Hempty.
    { rewrite /batch Hall in Hempty. by destruct queue. }
    rewrite (bool_decide_eq_true_2 (0 = 0)) //.
    destruct (save_batch_spec batch self Hbatch Hforest) as (Hf & Hfront & _).
    case_bool_decide; [done|]. split; [done|]. split; [done|].
    split; [|done]. by apply Forall_fmap.
  + (* a later level *)
    assert (Forall (λ item, frontier_item (discovered_profiles self) item.1) remaining)
      as Hrem by by apply Forall_filter_keep.
    case_bool_decide.
    { split; [done|]. right. split; [lia|done]. }
    rewrite (bool_decide_eq_false_2 (level = 0)); [lia|].
    case_bool_decide; [done|]. split; [done|]. split; [lia|]. split; [|done].
    apply Forall_fmap, Forall_fmap. by apply Forall_filter_keep.
- (* the gather *)
  destruct Hpc as (Hlevel & Htasks & Hqueue).
  case_bool_decide.
  + split; [done|]. right. split; [lia|]. apply Forall_app. split; [done|].
    apply Forall_fmap. simpl. by apply task_results_frontier.
  + pose proof (resume_spec tasks (choice `mod` unfinished tasks) self w
                            Hforest Htasks) as (Hf & Hts & more & Hmore).
    destruct (resume client api _ tasks self w) as [[tasks' self'] w'].
    simpl in *. split; [done|]. split; [done|]. split; [done|].
    rewrite Hmore. eapply Forall_impl; [exact Hqueue|].
    intros item. apply frontier_item_mono.
- done.
Qed.

(** A run cut short inside a step reports a prefix of the records. *)
Lemma forest_prefix (records : list dict) (k : nat) :
forest records → forest (take k records).
Proof.
intros Hforest i r Hi.
apply lookup_take_Some in Hi as [Hi Hlt].
destruct (Hforest i r Hi) as [?|(j & p & Hj & Hp & Hby)]; [by left|].
right. exists j, p. split; [done|]. split; [|done].
rewrite lookup_take_lt //. lia.
Qed.

(** Every state a run passes through satisfies the invariant. *)
Lemma run_inv (choices : list nat) (m : machine) :
machine_inv m → machine_inv (run client api max_depth choices m).
Proof.
revert m. induction choices as [|choice choices IH]; intros m Hm; [done|].
apply IH. by apply step_inv.
Qed.

Lemma report_forest (usernames : list string) (w : World) (choices : list nat) :
forest (profiles (discover_from_usernames client api max_depth usernames w choices)).
Proof. apply (run_inv choices), start_inv. Qed.

(** X24: in the report of every run, completed or cut short, every record
    is a seed record, with [depth_level] 0 and the empty string as
    [source_urn], or it has a discoverer reported before it: an earlier
    record whose identity key is its [source_urn] and whose [depth_level]
    is one less than its own. No record refers to a source that the report
    lacks. *)
Theorem report_records_discovered (usernames : list string) (w : World)
        (choices : list nat) (i : nat) (r : dict) :
profiles (discover_from_usernames client api max_depth usernames w choices) !! i
= Some r →
(r !! "depth_level" = Some (VInt 0) ∧ r !! "source_urn" = Some (VStr ""))
∨ ∃ j p key n,
    (j < i)%nat
    ∧ profiles (discover_from_usernames client api max_depth usernames w choices) !! j
      = Some p
    ∧ p !! "urn" = Some key ∧ r !! "source_urn" = Some key
    ∧ p !! "depth_level" = Some (VInt n)
    ∧ r !! "depth_level" = Some (VInt (n + 1))
    ∧ 0 ≤ n.
Proof.
intros Hr.
destruct (report_forest usernames w choices i r Hr)
  as [?|(j & p & Hj & Hp & key & n & Hkey & Hsrc & Hpd & Hrd & Hn)]; [by left|].
right. by exists j, p, key, n.
Qed.
End discovery_facts.

(** The run of the engine on [api_two_keys] from the seed "alice" with depth
    1, under the sequential schedule, until it returns. *)
Lemma two_keys_run_completed :
  Discovery.completed client3 api_two_keys 1 ["alice"] 0%nat (sequential 7) = true.
Proof. by vm_compute. Qed.

(** C1 fails on the code: the engine marks the key of a similar-list entry
    as seen and then records the fetched profile under the profile's own
    key, which it never checks. On [api_two_keys] the completed report holds
    two records with key "A" and a record with key "C", while the seen keys
    are "A", "B" and "D". *)
Lemma two_keys_run_duplicates :
  Discovery.record_keys
    (Discovery.profiles
       (Discovery.discover_from_usernames client3 api_two_keys 1 ["alice"] 0%nat
                                          (sequential 7)))
  = [VStr "A"; VStr "A"; VStr "C"]
  ∧ Discovery.seen_urns
      (Discovery.self_of
         (Discovery.run client3 api_two_keys 1 (sequential 7)
                        (Discovery.start 1 ["alice"] 0%nat)))
    = {[ "A"; "B"; "D" ]}
  ∧ ¬ NoDup [VStr "A"; VStr "A"; VStr "C"]
  ∧ "C" ∉ ({[ "A"; "B"; "D" ]} : gset string).
Proof.
split; [by vm_compute|]. split; [by vm_compute|]. split.
- intros Hnodup. apply NoDup_cons in Hnodup as [Hin _]. apply Hin. by left.
- rewrite !not_elem_of_union !not_elem_of_singleton. by repeat split.
Qed.

(** C2 fails on the code, by the defect of C1: the fetched profile is
    recorded under its own key, unchecked. On [api_two_keys] the completed
    report holds the seed with key "A", a record of level 1 with key "A"
    and source "A", and a record of level 1 with key "C" and source "A".
    The second record has its own key as source, and the source of the
    third is the key of two records: the records do not form a forest with
    one discoverer per record. *)
Lemma two_keys_run_two_discoverers :
  let again : dict := {[ "urn" := VStr "A"; "username" := VStr "alice";
                         "depth_level" := VInt 1; "source_urn" := VStr "A" ]} in
  let other : dict := {[ "urn" := VStr "C"; "username" := VStr "carol";
                         "depth_level" := VInt 1; "source_urn" := VStr "A" ]} in
  Discovery.profiles
    (Discovery.discover_from_usernames client3 api_two_keys 1 ["alice"] 0%nat
                                       (sequential 7))
  = [seed_record; again; other]
  ∧ (again !! "depth_level" ≠ Some (VInt 0)
     ∧ again !! "source_urn" = again !! "urn")
  ∧ (other !! "depth_level" ≠ Some (VInt 0)
     ∧ seed_record !! "urn" = other !! "source_urn"
     ∧ again !! "urn" = other !! "source_urn").
Proof.
split; [by vm_compute|]. by vm_compute.
Qed.

(** C3 fails on the code, by the defect of C1. On [api_two_keys] the
    completed report holds, at level 1, a record with key "C" and source
    "A", and a record with key "A" and source "A": the second carries the
    source key of the first, and of itself, at the same level, not one
    level up. *)
Lemma two_keys_run_depth_mismatch :
  let again : dict := {[ "urn" := VStr "A"; "username" := VStr "alice";
                         "depth_level" := VInt 1; "source_urn" := VStr "A" ]} in
  let other : dict := {[ "urn" := VStr "C"; "username" := VStr "carol";
                         "depth_level" := VInt 1; "source_urn" := VStr "A" ]} in
  let records :=
    Discovery.profiles
      (Discovery.discover_from_usernames client3 api_two_keys 1 ["alice"] 0%nat
                                         (sequential 7)) in
  records !! 1%nat = Some again
  ∧ records !! 2%nat = Some other
  ∧ again !! "urn" = other !! "source_urn"
  ∧ again !! "urn" = again !! "source_urn"
  ∧ other !! "depth_level" = Some (VInt 1)
  ∧ again !! "depth_level" = Some (VInt 1)
  ∧ 1 ≠ 1 + 1.
Proof.
split; [by vm_compute|]. split; [by vm_compute|]. by vm_compute.
Qed.

Lemma report_records_discovered_witness :
  let r : dict := {[ "urn" := VStr "C"; "username" := VStr "carol";
                     "depth_level" := VInt 1; "source_urn" := VStr "A" ]} in
  (r !! "depth_level" = Some (VInt 0) ∧ r !! "source_urn" = Some (VStr ""))
  ∨ ∃ j p key n,
      (j < 1)%nat
      ∧ Discovery.profiles
          (Discovery.discover_from_usernames client3 api_scenario 1
                                             ["alice"; "bob"] 0%nat (sequential 8))
        !! j = Some p
      ∧ p !! "urn" = Some key ∧ r !! "source_urn" = Some key
      ∧ p !! "depth_level" = Some (VInt n)
      ∧ r !! "depth_level" = Some (VInt (n + 1))
      ∧ 0 ≤ n.
Proof.
apply (report_records_discovered client3 api_scenario 1 ["alice"; "bob"] 0%nat
                                 (sequential 8) 1).
by vm_compute.
Defined.

(** The scenario of the specification: two records, "A" at level 0 and "C" at
    level 1 below "A"; "bob" is listed as failed; two keys were seen. *)
Example scenario_alice_bob :
  let report :=
    Discovery.discover_from_usernames client3 api_scenario 1 ["alice"; "bob"]
                                      0%nat (sequential 8) in
  Discovery.completed client3 api_scenario 1 ["alice"; "bob"] 0%nat (sequential 8)
  = true
  ∧ summary <$> Discovery.profiles report
    = [(Some (VStr "A"), Some (VInt 0), Some (VStr ""));
       (Some (VStr "C"), Some (VInt 1), Some (VStr "A"))]
  ∧ Discovery.report_failed_usernames report = ["bob"]
  ∧ Discovery.unique_urns report = 2%nat
  ∧ Discovery.total_discovered report = 2%nat.
Proof. by vm_compute. Qed.

(** A candidate similar to two seeds of the same level is recorded once,
    under the seed whose lookup marked it first: under "A" when the
    coroutines run in order, under "D" when the second one is resumed
    first. *)
Example shared_candidate_recorded_once :
  summary <$> Discovery.profiles
                (Discovery.discover_from_usernames
                   client3 api_scenario 1 ["alice"; "dave"] 0%nat (sequential 9))
  = [(Some (VStr "A"), Some (VInt 0), Some (VStr ""));
     (Some (VStr "D"), Some (VInt 0), Some (VStr ""));
     (Some (VStr "C"), Some (VInt 1), Some (VStr "A"))]
  ∧ summary <$> Discovery.profiles
                  (Discovery.discover_from_usernames
                     client3 api_scenario 1 ["alice"; "dave"] 0%nat
                     [0; 0; 0; 0; 1; 0; 0; 0; 0]%nat)
    = [(Some (VStr "A"), Some (VInt 0), Some (VStr ""));
       (Some (VStr "D"), Some (VInt 0), Some (VStr ""));
       (Some (VStr "C"), Some (VInt 1), Some (VStr "D"))].
Proof. by vm_compute. Qed.

(** A rate-limit error on the first of three attempts: the call waits and
    succeeds on the second. *)
Example rate_limit_then_success :
  Client._make_api_call_with_retry client3 limited_then_ok "alice" 0%nat
  = (Client.Success {[ "success" := VBool true ]},
     [Client.Call;
      Client.Log "[yellow]⏳ (alice) Rate limit hit - waiting 2s[/]";
      Client.Sleep 2;
      Client.Call],
     2%nat).
Proof. by vm_compute. Qed.

(** * Further properties of the code *)

(** ** More on the retry loop *)

Section retry_more.
Import Client.
Context (self : LeadsAPIClient) (identifier : string).
Context {World : Type} (api_call : World → outcome * World).

(** An attempt whose body returns ends the call. *)
Lemma make_api_call_returns (k : nat) (w wk w' : World) (os : list outcome)
      (o : outcome) (r : result) (le : option string) :
call_sequence api_call k w = (os, wk) →
Forall (λ o, is_Some (retryable_failure o)) os →
(k < max_retries self)%nat →
api_call wk = (o, w') →
attempt_body self identifier k o = (Return r, le, []) →
_make_api_call_with_retry self api_call identifier w
= (r, retried_events self identifier 0 os ++ [Call], w')
∧ calls (retried_events self identifier 0 os ++ [Call]) = S k.
Proof.
intros Hseq Hos Hk Hw Hbody.
rewrite (make_api_call_prefix self identifier api_call k w wk os) //.
destruct (max_retries self - k)%nat as [|r'] eqn:Hr; [lia|].
rewrite /= Hw Hbody. split; [done|].
pose proof (call_sequence_length api_call k w wk os Hseq) as Hlen.
rewrite calls_app retried_events_calls //; [lia|].
rewrite Hlen /calls /=. lia.
Qed.

(** X1: a response that is not empty and carries no [success] entry ends the
    call at once with "Invalid response format", whatever the number of
    attempts left: it is not retried. *)
Theorem unrecognised_response_not_retried
        (k : nat) (w wk w' : World) (os : list outcome) (d : dict) :
call_sequence api_call k w = (os, wk) →
Forall (λ o, is_Some (retryable_failure o)) os →
(k < max_retries self)%nat →
api_call wk = (Returns (Some d), w') →
d ≠ ∅ →
d !! "success" = None →
∃ evs,
  _make_api_call_with_retry self api_call identifier w
  = (Failure "Invalid response format", evs, w')
  ∧ calls evs = S k
  ∧ last evs = Some Call.
Proof.
intros Hseq Hos Hk Hw Hne Hnone.
destruct (make_api_call_returns k w wk w' os (Returns (Some d))
            (Failure "Invalid response format") (Some "Invalid response format"))
  as [Hrun Hcalls]; try done.
{ by rewrite /attempt_body /not_response bool_decide_eq_false_2 //= Hnone. }
eexists. split; [exact Hrun|]. split; [done|]. by rewrite last_app.
Qed.

(** X2: the first attempt whose response carries a truthy [success] entry
    ends the call with that response, after as many calls as attempts made;
    the failures retried before it leave no mark on the result. *)
Theorem success_after_retries
        (k : nat) (w wk w' : World) (os : list outcome) (d : dict) (flag : value) :
call_sequence api_call k w = (os, wk) →
Forall (λ o, is_Some (retryable_failure o)) os →
(k < max_retries self)%nat →
api_call wk = (Returns (Some d), w') →
d !! "success" = Some flag →
truthy flag = true →
∃ evs,
  _make_api_call_with_retry self api_call identifier w = (Success d, evs, w')
  ∧ calls evs = S k
  ∧ last evs = Some Call.
Proof.
intros Hseq Hos Hk Hw Hflag Htrue.
destruct (make_api_call_returns k w wk w' os (Returns (Some d)) (Success d) None)
  as [Hrun Hcalls]; try done.
{ rewrite /attempt_body /not_response bool_decide_eq_false_2.
  { intros ->. by rewrite lookup_empty in Hflag. }
  by rewrite /= Hflag Htrue. }
eexists. split; [exact Hrun|]. split; [done|]. by rewrite last_app.
Qed.

(** The shape of the effects of the loop. *)
Lemma retry_loop_shape (remaining : nat) :
∀ (attempt : nat) (le : option string) (w : World),
  (remaining + attempt = max_retries self)%nat →
  (calls (retry_loop self api_call identifier remaining attempt le w).1.2
   ≤ remaining)%nat
  ∧ (remaining ≠ 0%nat →
     last (retry_loop self api_call identifier remaining attempt le w).1.2
     = Some Call).
Proof.
induction remaining as [|remaining IH]; intros attempt le w Hsum.
{ split; [done|]. by intros []. }
simpl. destruct (api_call w) as [o w1].
destruct (retryable_failure o) as [c|] eqn:Hc.
- destruct (attempts_remain self attempt) eqn:Hrem.
  + destruct (attempt_body_retry self identifier attempt o c Hc Hrem)
      as (logs & -> & Hlogs & _).
    apply attempts_remain_lt in Hrem.
    destruct (IH (S attempt) (Some (error_message o)) w1) as [Hcalls Hlast]; [lia|].
    destruct (retry_loop _ _ _ _ _ _ _) as [[r evs'] w2]. simpl in *.
    split.
    * rewrite calls_cons_call calls_app calls_logs_sleep //. lia.
    * intros _. rewrite (app_comm_cons _ _ Call) last_app Hlast //. lia.
  + assert (remaining = 0%nat) as ->.
    { apply not_true_iff_false in Hrem. rewrite attempts_remain_lt in Hrem. lia. }
    rewrite (attempt_body_last self identifier attempt o c Hc Hrem).
    by destruct c.
- destruct (attempt_body_final self identifier attempt o Hc) as (r & le' & ->).
  split; [|done]. rewrite /calls /=. lia.
Qed.

(** X3: a call makes at most [max_retries] calls to the service. With no
    attempt allowed it makes none and fails with "Max retries exceeded";
    otherwise it makes at least one, and its last effect is a call: it never
    sleeps or logs after its last attempt. *)
Theorem attempts_bounded (w : World) :
(calls (_make_api_call_with_retry self api_call identifier w).1.2
 ≤ max_retries self)%nat
∧ (max_retries self = 0%nat →
   _make_api_call_with_retry self api_call identifier w
   = (Failure "Max retries exceeded", [], w))
∧ (max_retries self ≠ 0%nat →
   last (_make_api_call_with_retry self api_call identifier w).1.2 = Some Call).
Proof.
rewrite /_make_api_call_with_retry.
destruct (retry_loop_shape (max_retries self) 0 None w) as [Hcalls Hlast]; [lia|].
split; [done|]. split; [|done]. by intros ->.
Qed.

(** X4: an attempt that returns an empty response, or an explicit failure
    whose message holds no terminal marker, is retried while attempts
    remain: the call sleeps [retry_delay] after the empty response and one
    second after the explicit failure, then calls again. *)
Theorem response_failure_backoff
        (k : nat) (w wk w1 : World) (os : list outcome) (o : outcome)
        (c : category) :
call_sequence api_call k w = (os, wk) →
Forall (λ o, is_Some (retryable_failure o)) os →
(S k < max_retries self)%nat →
api_call wk = (o, w1) →
retryable_failure o = Some c →
c = EmptyResponse ∨ c = ExplicitFailure →
∃ pre logs post r w',
  _make_api_call_with_retry self api_call identifier w
  = (r, pre ++ Call :: logs
          ++ Sleep (if bool_decide (c = ExplicitFailure) then 1 else retry_delay self)
          :: Call :: post, w')
  ∧ calls pre = k
  ∧ forallb is_log logs = true.
Proof.
intros Hseq Hos Hk Hw Hc Hcat.
rewrite (make_api_call_prefix self identifier api_call k w wk os) //; [lia|].
destruct (max_retries self - k)%nat as [|[|rem]] eqn:Hrem; [lia..|].
assert (attempts_remain self k = true) as Hremain
    by (apply attempts_remain_lt; lia).
rewrite (retry_loop_retry self identifier api_call _ _ _ _ _ _ c Hw) //.
destruct (attempt_body_retry self identifier k o c)
  as (logs & -> & Hlogs & _); [done..|].
destruct (retry_loop_starts_with_call self identifier api_call rem (S k)
            (Some (error_message o)) w1) as (r & post & w' & ->).
exists (retried_events self identifier 0 os), logs, post, r, w'.
split; [|split; [|done]].
- rewrite /= -!app_assoc /=. do 4 f_equal.
  by destruct Hcat as [-> | ->].
- rewrite retried_events_calls //;
    rewrite (call_sequence_length api_call k w wk os) //. lia.
Qed.
End retry_more.

Section endpoint_more.
Import Client.
Context {World : Type} (self : LeadsAPIClient) (api : AsyncLinkdAPI World).

Lemma valid_profile_Some (entry : value) (p : dict) :
valid_profile entry = Some p →
entry = VDict p ∧ truthy (get p "urn") = true ∧ truthy (get p "id") = true.
Proof.
destruct entry as [| | | | |d]; simpl; try done.
destruct (truthy (get d "urn")) eqn:Hurn; [|done].
destruct (truthy (get d "id")) eqn:Hid; [|done].
by intros [= <-].
Qed.

Lemma omap_valid_sublist (entries : list value) :
VDict <$> omap valid_profile entries `sublist_of` entries.
Proof.
induction entries as [|entry entries IH]; [done|].
simpl. destruct (valid_profile entry) as [p|] eqn:Hp.
- apply valid_profile_Some in Hp as [-> _]. rewrite fmap_cons. by apply sublist_skip.
- by apply sublist_cons.
Qed.

(** X5: when the retried call of a similar-profiles lookup succeeds with a
    list of objects as payload, the lookup succeeds without error and
    returns, in their order, exactly the entries that hold a truthy [urn]
    and a truthy [id]. *)
Theorem similar_profiles_filtered (urn : string) (w : World) (response : dict)
        (entries : list value) :
(_make_api_call_with_retry self (api_get_similar_profiles api urn)
                           (str_take 20 urn) w).1.1 = Success response →
response !! "data" = Some (VList entries) →
Forall (λ entry, ∃ p, entry = VDict p) entries →
let result := (get_similar_profiles self api urn w).1.1 in
result.1.1 = true
∧ result.2 = None
∧ VDict <$> result.1.2 `sublist_of` entries
∧ ∀ p, p ∈ result.1.2
       ↔ VDict p ∈ entries
         ∧ truthy (get p "urn") = true ∧ truthy (get p "id") = true.
Proof.
intros Hcall Hdata _. rewrite /get_similar_profiles.
destruct (_make_api_call_with_retry _ _ _ _) as [[r evs] w'].
simpl in Hcall. subst r. rewrite Hdata /=.
split; [done|]. split; [done|]. split; [apply omap_valid_sublist|].
intros p. rewrite list_elem_of_omap. split.
- intros (entry & Hin & Hvalid).
  apply valid_profile_Some in Hvalid as (-> & Hurn & Hid). done.
- intros (Hin & Hurn & Hid). exists (VDict p). split; [done|].
  by rewrite /= Hurn Hid.
Qed.

Lemma get_full_profile_calls (username : string) (w : World) :
(calls (get_full_profile self api username w).1.2 ≤ max_retries self)%nat.
Proof.
rewrite /get_full_profile.
pose proof (retry_loop_shape self username (api_get_full_profile api username)
              (max_retries self) 0 None w ltac:(lia)) as [Hcalls _].
rewrite /_make_api_call_with_retry.
destruct (retry_loop _ _ _ _ _ _ _) as [[[err|response] evs] w']; [done|].
simpl in *. destruct (response !! "data") as [[| | | | |d]|]; try done.
case_bool_decide; [done|]. by destruct (negb _ || negb _).
Qed.

(** X6: fetching a batch of handles makes at most [max_retries] calls to the
    service per handle. *)
Theorem batch_calls_bounded (usernames : list string) (w : World) :
(calls (get_full_profiles_batch self api usernames w).1.2
 ≤ max_retries self * length usernames)%nat.
Proof.
revert w. induction usernames as [|username rest IH]; intros w.
{ rewrite /calls /=. lia. }
simpl. rewrite /fetch_one.
pose proof (get_full_profile_calls username w) as H1.
destruct (get_full_profile self api username w) as [[[[ok p] e] evs] w1].
specialize (IH w1).
destruct (get_full_profiles_batch self api rest w1) as [[results evs'] w2].
simpl in *. rewrite calls_app. lia.
Qed.
End endpoint_more.

Section run_more.
Import Client Discovery DiscoveryInv.
Context {World : Type} (client : LeadsAPIClient) (api : AsyncLinkdAPI World).
Context (max_depth : Z).

(** *** The log buffer *)

Lemma add_log_bound (message : string) (self : ProfileTreeDiscovery) :
(length (log_buffer (_add_log message self)) ≤ 30)%nat.
Proof. rewrite /= length_drop length_app /=. lia. Qed.

Lemma callback_logs_bound (evs : list event) (self : ProfileTreeDiscovery) :
(length (log_buffer self) ≤ 30)%nat →
(length (log_buffer (callback_logs evs self)) ≤ 30)%nat.
Proof.
rewrite /callback_logs. revert self.
induction (log_lines evs) as [|line lines IH]; intros self Hlen; [done|].
apply IH, add_log_bound.
Qed.

Lemma callback_logs_frame {A : Type} (f : ProfileTreeDiscovery → A)
      (evs : list event) (self : ProfileTreeDiscovery) :
(∀ message s, f (_add_log message s) = f s) →
f (callback_logs evs self) = f self.
Proof.
intros Hf. rewrite /callback_logs. revert self.
induction (log_lines evs) as [|line lines IH]; intros self; [done|].
by rewrite /= IH Hf.
Qed.

Lemma level_effect_refl (level : Z) (s : ProfileTreeDiscovery) :
level_effect level s s.
Proof.
split; [done|]. split; [done|]. split; [done|]. split.
- exists []. by rewrite app_nil_r.
- exists []. rewrite app_nil_r. split; [done|]. by intros u ?%elem_of_nil.
Qed.

Lemma level_effect_logs (level : Z) (evs : list event) (s s' : ProfileTreeDiscovery) :
level_effect level (callback_logs evs s) s' → level_effect level s s'.
Proof.
rewrite /level_effect.
rewrite !(callback_logs_frame seen_urns) // !(callback_logs_frame failed_usernames) //.
rewrite !(callback_logs_frame discovered_profiles) // !(callback_logs_frame failed_urns) //.
intros (? & ? & Hlog & ? & ?). repeat split; try done.
intros Hlen. by apply Hlog, callback_logs_bound.
Qed.

Lemma level_effect_add_log (level : Z) (message : string)
      (s s' : ProfileTreeDiscovery) :
level_effect level s s' → level_effect level s (_add_log message s').
Proof.
intros (? & ? & Hlog & ? & ?). repeat split; try done.
intros _. apply add_log_bound.
Qed.

(** *** The marking loop *)

Lemma mark_similar_effects (similar_profiles : list dict) :
∀ (usernames_to_fetch : list string) (self : ProfileTreeDiscovery),
  let self' := (mark_similar similar_profiles usernames_to_fetch self).2 in
  seen_urns self ⊆ seen_urns self'
  ∧ failed_usernames self' = failed_usernames self
  ∧ failed_urns self' = failed_urns self
  ∧ log_buffer self' = log_buffer self
  ∧ discovered_profiles self' = discovered_profiles self.
Proof.
induction similar_profiles as [|similar rest IH]; intros us self; [done|].
simpl. destruct (_ && _); [|apply IH].
destruct (IH (us ++ [text (if truthy (get similar "username")
                            then get similar "username"
                            else get similar "publicIdentifier")])
             (add_seen (text (get similar "urn")) self))
  as (Hseen & ? & ? & ? & ?).
repeat split; try done. simpl in Hseen.
etrans; [|exact Hseen]. apply union_subseteq_r.
Qed.

Lemma process_profile_lookup_effects (level : Z) (f : dict)
      (self : ProfileTreeDiscovery) (w : World) :
frontier_item (discovered_profiles self) f →
f !! "depth" = Some (VInt level) →
level_effect level self (process_profile_lookup client api f self w).1.2
∧ task_level level (process_profile_lookup client api f self w).1.1.
Proof.
intros Hf Hdepth. rewrite /process_profile_lookup.
destruct (get_similar_profiles _ _ _ _) as [[[[ok similar] e] evs] w'].
destruct ok; simpl.
- pose proof (mark_similar_effects similar [] (callback_logs evs self))
    as (Hseen & Hfu & Hfurn & Hlog & Hdisc).
  destruct (mark_similar similar [] (callback_logs evs self)) as [us self'].
  simpl in *.
  assert (level_effect level self self') as Heff.
  { apply (level_effect_logs level evs).
    split; [done|]. split; [done|]. split; [by rewrite Hlog|]. split.
    - exists []. by rewrite app_nil_r.
    - exists []. rewrite app_nil_r. split; [done|]. by intros u ?%elem_of_nil. }
  case_bool_decide; simpl; split; try done.
  by apply level_effect_add_log.
- split; [|done]. apply level_effect_add_log, (level_effect_logs level evs).
  split; [done|]. split; [done|]. split; [done|]. split.
  + exists []. by rewrite app_nil_r.
  + exists [text (get f "urn")]. split; [done|].
    intros u ->%list_elem_of_singleton.
    destruct Hf as (k & n & p & Hurn & _ & _ & Hp & Hp_urn & _).
    exists p. rewrite (callback_logs_frame discovered_profiles) //.
    split; [done|]. by rewrite /key /get Hp_urn Hurn.
Qed.

Lemma save_fetched_effects (level : Z) (urn : value)
      (results : list (string * bool * option dict * option string)) :
∀ (new_profiles : list dict) (self : ProfileTreeDiscovery),
  Forall (λ f, f !! "depth" = Some (VInt (level + 1))) new_profiles →
  let self' := (save_fetched urn level results new_profiles self).2 in
  seen_urns self' = seen_urns self
  ∧ failed_usernames self' = failed_usernames self
  ∧ failed_urns self' = failed_urns self
  ∧ ((length (log_buffer self) ≤ 30)%nat → (length (log_buffer self') ≤ 30)%nat)
  ∧ (∃ added, discovered_profiles self' = discovered_profiles self ++ added
              ∧ Forall (λ r, r !! "depth_level" = Some (VInt (level + 1))) added)
  ∧ Forall (λ f, f !! "depth" = Some (VInt (level + 1)))
           (save_fetched urn level results new_profiles self).1.
Proof.
induction results as [|[[[username ok] fp] e] rest IH];
  intros new_profiles self Hnew.
{ repeat split; try done. exists []. by rewrite app_nil_r. }
cbn [save_fetched].
destruct (ok && truthy (VDict (default ∅ fp))).
- set (full := <["source_urn" := urn]>
                 (<["depth" := VInt (level + 1)]> (default ∅ fp))).
  assert (full !! "depth" = Some (VInt (level + 1))) as Hdepth.
  { by rewrite /full lookup_insert_ne // lookup_insert_eq. }
  set (r := saved_record full (get full "depth")).
  destruct (IH (new_profiles ++ [full]) (_add_discovered_profile r self))
    as (Hseen & Hfu & Hfurn & Hlog & (added & Hadded & Hdepths) & Hnew').
  { apply Forall_app. split; [done|]. by apply Forall_singleton. }
  repeat split; try done.
  exists (r :: added). split.
  + by rewrite Hadded /= -app_assoc.
  + constructor; [|done].
    by rewrite /r saved_record_depth_level /get Hdepth.
- destruct (IH new_profiles
               (_add_log ("[yellow]⚠ " +:+ username
                          +:+ " -> Failed to fetch full profile: "
                          +:+ str_opt e +:+ "[/]") self) Hnew)
    as (Hseen & Hfu & Hfurn & Hlog & Hadded & Hnew').
  repeat split; try done.
  intros _. apply Hlog, add_log_bound.
Qed.

Lemma process_profile_fetch_effects (level : Z) (f : dict)
      (usernames_to_fetch : list string)
      (self : ProfileTreeDiscovery) (w : World) :
f !! "depth" = Some (VInt level) →
level_effect level self
             (process_profile_fetch client api f usernames_to_fetch self w).1.2
∧ task_level level
             (process_profile_fetch client api f usernames_to_fetch self w).1.1.
Proof.
intros Hdepth. rewrite /process_profile_fetch.
destruct (get_full_profiles_batch _ _ _ _) as [[results evs] w'].
assert (int (get_or f "depth" (VInt 0)) = level) as -> by by rewrite /get_or Hdepth.
pose proof (save_fetched_effects level (get f "urn") results []
                                 (callback_logs evs self) (Forall_nil_2 _))
  as (Hseen & Hfu & Hfurn & Hlog & Hadded & Hnew).
destruct (save_fetched (get f "urn") level results [] (callback_logs evs self))
  as [new_profiles self'].
simpl in *.
assert (level_effect level self self') as Heff.
{ apply (level_effect_logs level evs).
  split; [by rewrite Hseen|]. split; [done|]. split; [done|]. split; [done|].
  exists []. rewrite app_nil_r. split; [done|]. by intros u ?%elem_of_nil. }
case_bool_decide; simpl; (split; [|done]); by apply level_effect_add_log.
Qed.

(** Resuming a coroutine of a level. *)
Lemma resume_effects (level : Z) (tasks : list task) :
∀ (i : nat) (self : ProfileTreeDiscovery) (w : World),
  Forall (task_inv (discovered_profiles self)) tasks →
  Forall (task_level level) tasks →
  level_effect level self (resume client api i tasks self w).1.2
  ∧ Forall (task_level level) (resume client api i tasks self w).1.1.
Proof.
induction tasks as [|t rest IH]; intros i self w Hinv Hlevel.
{ split; [apply level_effect_refl|done]. }
apply Forall_cons in Hinv as [Ht Hrest].
apply Forall_cons in Hlevel as [Hl Hlrest].
assert (∀ j,
  let res := resume client api j rest self w in
  level_effect level self res.1.2 ∧ Forall (task_level level) (t :: res.1.1))
  as Hskip.
{ intros j. destruct (IH j self w Hrest Hlrest) as [Heff Hts].
  split; [done|]. by constructor. }
destruct t as [f|f us|new_profiles], i as [|i]; cbn [resume].
- pose proof (process_profile_lookup_effects level f self w Ht Hl) as [Heff Ht'].
  destruct (process_profile_lookup client api f self w) as [[t' self'] w'].
  simpl in *. split; [done|]. by constructor.
- specialize (Hskip i).
  destruct (resume client api i rest self w) as [[rest' self'] w']. done.
- pose proof (process_profile_fetch_effects level f us self w Hl) as [Heff Ht'].
  destruct (process_profile_fetch client api f us self w) as [[t' self'] w'].
  simpl in *. split; [done|]. by constructor.
- specialize (Hskip i).
  destruct (resume client api i rest self w) as [[rest' self'] w']. done.
- specialize (Hskip 0%nat).
  destruct (resume client api 0 rest self w) as [[rest' self'] w']. done.
- specialize (Hskip (S i)).
  destruct (resume client api (S i) rest self w) as [[rest' self'] w']. done.
Qed.

(** *** Seeds *)

Lemma key_seed_item (profile_data : dict) :
key (<["source_urn" := VStr ""]> (<["depth" := VInt 0]> profile_data))
= key profile_data.
Proof. by rewrite /key /get !lookup_insert_ne. Qed.

Lemma seed_iteration_effects (username : string) (starting_urns : list dict)
      (self : ProfileTreeDiscovery) (w : World) :
fresh_seeds (seen_urns self) starting_urns →
let res := seed_iteration client api username starting_urns self w in
fresh_seeds (seen_urns res.1.2) res.1.1
∧ discovered_profiles res.1.2 = discovered_profiles self
∧ failed_urns res.1.2 = failed_urns self
∧ (length (log_buffer res.1.2) ≤ 30)%nat
∧ (failed_usernames res.1.2 = failed_usernames self
   ∨ failed_usernames res.1.2 = failed_usernames self ++ [username]).
Proof.
intros (Hnodup & Hseen & Hshape). rewrite /seed_iteration.
destruct (get_full_profile _ _ _ _) as [[[[ok pd] e] evs] w'].
assert (fresh_seeds (seen_urns (callback_logs evs self)) starting_urns) as Hfresh.
{ by rewrite (callback_logs_frame seen_urns). }
destruct (ok && _); simpl.
2: { rewrite (callback_logs_frame seen_urns) // (callback_logs_frame discovered_profiles) //.
     rewrite (callback_logs_frame failed_urns) // (callback_logs_frame failed_usernames) //.
     repeat split; try done; [|by right].
     rewrite length_drop length_app /=. lia. }
destruct (bool_decide (text _ ≠ "")) eqn:Hurn; simpl.
2: { rewrite (callback_logs_frame seen_urns) // (callback_logs_frame discovered_profiles) //.
     rewrite (callback_logs_frame failed_urns) // (callback_logs_frame failed_usernames) //.
     repeat split; try done; [|by right].
     rewrite length_drop length_app /=. lia. }
apply bool_decide_eq_true in Hurn.
destruct (bool_decide (_ ∉ _)) eqn:Hnew; simpl.
2: { rewrite (callback_logs_frame seen_urns) // (callback_logs_frame discovered_profiles) //.
     rewrite (callback_logs_frame failed_urns) // (callback_logs_frame failed_usernames) //.
     repeat split; try done; [|by left].
     rewrite length_drop length_app /=. lia. }
apply bool_decide_eq_true in Hnew.
rewrite (callback_logs_frame seen_urns) // in Hnew.
rewrite (callback_logs_frame seen_urns) // (callback_logs_frame discovered_profiles) //.
rewrite (callback_logs_frame failed_urns) // (callback_logs_frame failed_usernames) //.
split; [|repeat split; try done; [rewrite length_drop length_app /=; lia|by left]].
split; [|split].
- rewrite fmap_app /= key_seed_item. apply NoDup_app. split; [done|]. split.
  + intros k Hk ->%list_elem_of_singleton.
    apply list_elem_of_fmap in Hk as (f & Hkey & Hf).
    apply Hnew. rewrite -/(key (default ∅ pd)) Hkey. by apply Hseen.
  + apply NoDup_singleton.
- intros f Hf. apply elem_of_app in Hf as [Hf|Hf];
    [|apply list_elem_of_singleton in Hf as ->].
  + apply elem_of_union. right. by apply Hseen.
  + rewrite key_seed_item. apply elem_of_union. left.
    by apply elem_of_singleton.
- apply Forall_app. split; [done|]. apply Forall_singleton. split.
  + by rewrite lookup_insert_ne // lookup_insert_eq.
  + rewrite !lookup_insert_ne //. rewrite /get in Hurn.
    by destruct (default ∅ pd !! "urn").
Qed.

Lemma save_batch_effects (current_batch : list dict) :
∀ self : ProfileTreeDiscovery,
  Forall (λ f, f !! "depth" = Some (VInt 0) ∧ is_Some (f !! "urn")) current_batch →
  let self' := save_batch current_batch self in
  seen_urns self' = seen_urns self
  ∧ failed_usernames self' = failed_usernames self
  ∧ failed_urns self' = failed_urns self
  ∧ log_buffer self' = log_buffer self
  ∧ ∃ added, discovered_profiles self' = discovered_profiles self ++ added
             ∧ key <$> added = key <$> current_batch
             ∧ Forall (λ r, r !! "depth_level" = Some (VInt 0)) added.
Proof.
induction current_batch as [|f rest IH]; intros self Hshape.
{ repeat split; try done. exists []. by rewrite app_nil_r. }
apply Forall_cons in Hshape as [[Hdepth Hurn] Hrest].
simpl. rewrite bool_decide_eq_true_2 //.
set (r := saved_record f (get_or f "depth" (VInt 0))).
destruct (IH (_add_discovered_profile r self) Hrest)
  as (? & ? & ? & ? & added & Hadded & Hkeys & Hdepths).
repeat split; try done.
exists (r :: added). split; [by rewrite Hadded /= -app_assoc|]. split.
- rewrite !fmap_cons Hkeys. f_equal.
  by rewrite /key /get /r saved_record_urn.
- constructor; [|done].
  by rewrite /r saved_record_depth_level /get_or Hdepth.
Qed.

(** *** Lists of records *)

Lemma level_ordered_app (records added : list dict) (level : Z) :
level_ordered records →
Forall (depth_level_in 0 level) records →
Forall (λ r, r !! "depth_level" = Some (VInt level)) added →
level_ordered (records ++ added).
Proof.
intros Hord Hbound Hadded i j r r' n n' Hij Hr Hr' Hn Hn'.
destruct (decide (j < length records)%nat) as [Hj|Hj].
- rewrite lookup_app_l // in Hr'. rewrite lookup_app_l in Hr; [lia|].
  by apply (Hord i j r r').
- rewrite lookup_app_r in Hr'; [lia|].
  assert (n' = level) as ->.
  { apply list_elem_of_lookup_2 in Hr'.
    rewrite Forall_forall in Hadded. specialize (Hadded r' Hr'). congruence. }
  destruct (decide (i < length records)%nat) as [Hi|Hi].
  + rewrite lookup_app_l // in Hr. apply list_elem_of_lookup_2 in Hr.
    rewrite Forall_forall in Hbound.
    destruct (Hbound r Hr) as (m & Hm & ?). simplify_eq. lia.
  + rewrite lookup_app_r in Hr; [lia|]. apply list_elem_of_lookup_2 in Hr.
    rewrite Forall_forall in Hadded. specialize (Hadded r Hr).
    assert (n = level) by congruence. lia.
Qed.

Lemma seed_keys_app_later (records added : list dict) (level : Z) :
0 ≤ level →
Forall (λ r, r !! "depth_level" = Some (VInt (level + 1))) added →
seed_keys (records ++ added) = seed_keys records.
Proof.
intros Hlevel Hadded. rewrite /seed_keys filter_app.
assert (filter (λ r, is_seed_record r = true) added = []) as ->.
{ induction Hadded as [|r added Hr _ IH]; [done|].
  rewrite filter_cons_False //. rewrite /is_seed_record Hr.
  destruct (level + 1) eqn:?; [lia|done..]. }
by rewrite app_nil_r.
Qed.

Lemma seed_keys_all (added : list dict) :
Forall (λ r, r !! "depth_level" = Some (VInt 0)) added →
seed_keys added = key <$> added.
Proof.
intros Hadded. rewrite /seed_keys. f_equal.
induction Hadded as [|r added Hr _ IH]; [done|].
rewrite filter_cons_True; [by rewrite /is_seed_record Hr|]. by rewrite IH.
Qed.

Lemma depth_level_in_weaken (lo hi hi' : Z) (records : list dict) :
hi ≤ hi' →
Forall (depth_level_in lo hi) records → Forall (depth_level_in lo hi') records.
Proof.
intros Hle H. eapply Forall_impl; [exact H|].
intros r (n & Hn & ?). exists n. split; [done|lia].
Qed.

Lemma depth_level_exact (level : Z) (added : list dict) :
0 ≤ level →
Forall (λ r, r !! "depth_level" = Some (VInt level)) added →
Forall (depth_level_in 0 level) added.
Proof.
intros Hlevel H. eapply Forall_impl; [exact H|].
intros r Hr. exists level. split; [done|lia].
Qed.

(** *** The facts every run keeps *)

Lemma batch_items (queue : list (dict * Z)) (level : Z) (f : dict) :
f ∈ (filter (λ item, item.2 = level) queue).*1 →
(f, level) ∈ queue.
Proof.
intros Hf. apply list_elem_of_fmap in Hf as ([f' d] & -> & Hin).
apply list_elem_of_filter in Hin as [Hd Hin]. simpl in Hd. by subst.
Qed.

Lemma batch_sublist (queue : list (dict * Z)) (level : Z) :
(filter (λ item, item.2 = level) queue).*1 `sublist_of` queue.*1.
Proof. apply fmap_sublist, sublist_filter. Qed.

Lemma start_facts (usernames : list string) (w : World) :
run_facts usernames max_depth (start max_depth usernames w).
Proof.
rewrite /run_facts /start /=. split; [lia|]. split; [apply sublist_nil_l|].
split; [done|]. split; [by intros i j r r' n n' _ ?|].
split; [apply NoDup_nil_2|]. split; [by intros k ?%elem_of_nil|].
split; [by intros u ?%elem_of_nil|]. split; [|split; [done|split; [done|]]].
- exists []. split; [done|]. apply sublist_nil_l.
- split; [apply NoDup_nil_2|]. split; [by intros f ?%elem_of_nil|done].
Qed.

Lemma step_facts (usernames : list string) (choice : nat) (m : machine) :
machine_inv m →
run_facts usernames max_depth m →
run_facts usernames max_depth (step client api max_depth choice m).
Proof.
destruct m as [self w [[|username rest] starting|queue level|tasks queue level|]];
  rewrite /machine_inv /run_facts /step; cbn [self_of world_of at_pc];
  intros [Hforest Hpc]
         (Hlog & Hfu & Hdepth & Hord & Hnodup & Hseen & Hfurn & Hfacts);
  simpl in Hpc, Hfacts.
- (* the seed loop is over *)
  destruct Hfacts as (_ & Hnil & Hfnil & Hfresh).
  case_bool_decide; cbn [self_of at_pc].
  { repeat split; try done. apply add_log_bound. }
  split; [apply add_log_bound|]. repeat (split; [done|]).
  simpl. destruct Hfresh as (Hnd & Hin & Hshape).
  split; [|split; [by rewrite Hnil|]].
  + apply Forall_fmap. eapply Forall_impl; [exact Hshape|]. by intros f [??].
  + intros _. split; [done|]. split; [done|].
    by rewrite -list_fmap_compose list_fmap_id.
- (* one seed *)
  destruct Hfacts as ((processed & Huser & Hsub) & Hnil & Hfnil & Hfresh).
  pose proof (seed_iteration_effects username starting self w Hfresh)
    as (Hfresh' & Hdisc & Hfurn' & Hlog' & Hfailed).
  destruct (seed_iteration client api username starting self w) as [[st self'] w'].
  cbn [self_of at_pc fst snd] in *.
  assert (failed_usernames self' `sublist_of` processed ++ [username]) as Hsub'.
  { destruct Hfailed as [-> | ->]; [by apply sublist_inserts_r|].
    by apply sublist_app. }
  assert (usernames = (processed ++ [username]) ++ rest) as Huser'.
  { by rewrite Huser -app_assoc. }
  rewrite Hdisc Hfurn' Hnil Hfnil.
  split; [done|]. split; [rewrite Huser'; by apply sublist_inserts_r|].
  split; [done|]. split; [by intros i j r r' n n' _ ?|].
  split; [apply NoDup_nil_2|]. split; [by intros k ?%elem_of_nil|].
  split; [by intros u ?%elem_of_nil|]. simpl.
  split; [by exists (processed ++ [username])|].
  split; [by rewrite Hdisc|]. split; [by rewrite Hfurn'|]. done.
- (* top of the while loop *)
  destruct Hfacts as (Hlevel & Hitems & Hbound & Hzero).
  case_bool_decide; cbn [self_of at_pc]; [done|].
  set (batch := (filter (λ item, item.2 = level) queue).*1).
  set (remaining := filter (λ item, item.2 ≠ level) queue).
  assert (Forall item_depth remaining) as Hrem by by apply Forall_filter_keep.
  assert (Forall (λ f, f !! "depth" = Some (VInt level)) batch) as Hbatch.
  { apply Forall_forall. intros f Hf%batch_items.
    rewrite Forall_forall in Hitems. by apply (Hitems (f, level)). }
  case_bool_decide; cbn [self_of at_pc].
  { repeat (split; [done|]). simpl. split; [lia|]. split; [done|].
    split; [by apply (depth_level_in_weaken 0 level); [lia|]|]. lia. }
  destruct (decide (level = 0)) as [->|Hne].
  + (* level 0: the seeds are saved *)
    rewrite (bool_decide_eq_true_2 (0 = 0)) //.
    destruct (Hzero eq_refl) as (Hnil & Hfnil & Hnd & Hin & Hshape).
    assert (Forall (λ f, f !! "depth" = Some (VInt 0) ∧ is_Some (f !! "urn")) batch)
      as Hshape'.
    { apply Forall_forall. intros f Hf. rewrite Forall_forall in Hshape.
      apply Hshape. eapply elem_of_sublist; [exact Hf|apply batch_sublist]. }
    pose proof (save_batch_effects batch self Hshape')
      as (Hs & Hfu' & Hfurn' & Hlog' & added & Hadded & Hkeys & Hdepths).
    rewrite Hnil /= in Hadded.
    assert (run_facts usernames max_depth
              {| self_of := save_batch batch self; world_of := w; at_pc := Returned |})
      as (F1 & F2 & F3 & F4 & F5 & F6 & F7 & _).
    { rewrite /run_facts /= Hfu' Hfurn' Hlog' Hs Hadded Hfnil.
      split; [done|]. split; [done|].
      split; [apply (depth_level_in_weaken 0 0); [lia|by apply depth_level_exact]|].
      split; [by apply (level_ordered_app [] added 0)|].
      rewrite seed_keys_all // Hkeys.
      split; [eapply sublist_NoDup; [exact Hnd|apply fmap_sublist, batch_sublist]|].
      split; [|split; [by intros u ?%elem_of_nil|done]].
      intros k Hk. apply list_elem_of_fmap in Hk as (f & -> & Hf).
      apply Hin. eapply elem_of_sublist; [exact Hf|apply batch_sublist]. }
    simpl in *.
    case_bool_decide; cbn [self_of at_pc]; [done|].
    split; [apply add_log_bound|]. repeat (split; [done|]). simpl.
    split; [lia|]. split; [by apply Forall_fmap|]. split; [done|].
    rewrite Hadded. apply (depth_level_in_weaken 0 0); [lia|].
    by apply depth_level_exact.
  + rewrite (bool_decide_eq_false_2 (level = 0)) //.
    case_bool_decide; cbn [self_of at_pc]; [done|].
    split; [apply add_log_bound|]. repeat (split; [done|]). simpl.
    split; [lia|]. split; [by apply Forall_fmap|]. split; [done|].
    by apply (depth_level_in_weaken 0 level); [lia|].
- (* the gather *)
  destruct Hfacts as (Hlevel & Htasks & Hitems & Hbound).
  destruct Hpc as (_ & Hinv & _).
  case_bool_decide; cbn [self_of at_pc].
  + split; [apply add_log_bound|]. repeat (split; [done|]). simpl.
    split; [lia|]. split; [|split; [done|lia]].
    apply Forall_app. split; [done|]. apply Forall_fmap.
    clear -Htasks. induction Htasks as [|t tasks Ht _ IH]; [done|].
    rewrite fmap_cons /=. apply Forall_app. split; [|done].
    destruct t; simpl in *; try done.
    eapply Forall_impl; [exact Ht|]. intros f Hf.
    by rewrite /item_depth /= /get Hf.
  + pose proof (resume_effects level tasks (choice `mod` unfinished tasks) self w
                               Hinv Htasks)
      as [(Hs & Hfu' & Hlog' & (added & Hadded & Hdepths)
           & (more & Hmore & Hkeys)) Htasks'].
    destruct (resume client api _ tasks self w) as [[tasks' self'] w'].
    cbn [self_of at_pc fst snd] in *.
    rewrite Hfu' Hadded Hmore.
    assert (Forall (depth_level_in 0 (level + 1)) added) as Hadded_in.
    { apply depth_level_exact; [lia|done]. }
    split; [by apply Hlog'|]. split; [done|].
    split; [apply Forall_app; split; [done|];
            by apply (depth_level_in_weaken 0 (level + 1)); [lia|]|].
    split; [by apply (level_ordered_app _ _ (level + 1))|].
    rewrite (seed_keys_app_later _ _ level) //; [lia|].
    split; [done|]. split; [intros k Hk; by apply Hs, Hseen|]. split.
    * intros u [Hu|Hu]%elem_of_app.
      -- destruct (Hfurn u Hu) as (p & Hp & Hkey). exists p.
         split; [|done]. apply elem_of_app. by left.
      -- destruct (Hkeys u Hu) as (p & Hp & Hkey). exists p.
         split; [|done]. apply elem_of_app. by left.
    * simpl. split; [done|]. split; [done|]. split; [done|].
      rewrite Hadded. apply Forall_app. by split.
- done.
Qed.

Lemma run_facts_all (usernames : list string) (choices : list nat) (m : machine) :
machine_inv m →
run_facts usernames max_depth m →
run_facts usernames max_depth (run client api max_depth choices m).
Proof.
revert m. induction choices as [|choice choices IH]; intros m Hinv Hm; [done|].
apply IH; [by apply step_inv|by apply step_facts].
Qed.

Lemma report_facts (usernames : list string) (w : World) (choices : list nat) :
run_facts usernames max_depth
          (run client api max_depth choices (start max_depth usernames w)).
Proof. apply run_facts_all; [apply start_inv|apply start_facts]. Qed.
End run_more.

Section run_properties.
Import Client Discovery DiscoveryInv.
Context {World : Type} (client : LeadsAPIClient) (api : AsyncLinkdAPI World).
Context (max_depth : Z).

(** X7: however a run goes, every record of its report carries an integer
    [depth_level] between 0 and [max_depth] (between 0 and 0 when
    [max_depth] is negative); with [max_depth] at most 0 every record is a
    seed record. *)
Theorem report_depths_bounded (usernames : list string) (w : World)
        (choices : list nat) (r : dict) :
r ∈ profiles (discover_from_usernames client api max_depth usernames w choices) →
∃ n, r !! "depth_level" = Some (VInt n)
     ∧ 0 ≤ n ≤ Z.max 0 max_depth
     ∧ (max_depth ≤ 0 → n = 0 ∧ r !! "source_urn" = Some (VStr "")).
Proof.
intros Hr.
destruct (report_facts client api max_depth usernames w choices)
  as (_ & _ & Hdepth & _).
rewrite Forall_forall in Hdepth. destruct (Hdepth r Hr) as (n & Hn & Hle).
exists n. split; [done|]. split; [done|]. intros Hmax.
assert (n = 0) as -> by lia. split; [done|].
apply list_elem_of_lookup in Hr as [i Hi].
destruct (report_forest client api max_depth usernames w choices i r Hi)
  as [[_ Hsrc]|(j & p & _ & _ & k & n' & _ & _ & _ & Hd & Hn')]; [done|].
rewrite Hn in Hd. injection Hd as Hd. lia.
Qed.

(** X8: the report lists the records level by level: along the list the
    [depth_level] never decreases, whatever the order in which the
    coroutines of a level ran. *)
Theorem report_level_ordered (usernames : list string) (w : World)
        (choices : list nat) (i j : nat) (r r' : dict) (n n' : Z) :
(i ≤ j)%nat →
profiles (discover_from_usernames client api max_depth usernames w choices) !! i
= Some r →
profiles (discover_from_usernames client api max_depth usernames w choices) !! j
= Some r' →
r !! "depth_level" = Some (VInt n) →
r' !! "depth_level" = Some (VInt n') →
n ≤ n'.
Proof.
destruct (report_facts client api max_depth usernames w choices)
  as (_ & _ & _ & Hord & _).
apply Hord.
Qed.

(** X9: the seed records of a report carry pairwise distinct identity keys,
    all of them in the set of seen keys: a handle that resolves to a key
    already seeded is skipped. *)
Theorem report_seeds_distinct (usernames : list string) (w : World)
        (choices : list nat) :
NoDup (seed_keys
         (profiles (discover_from_usernames client api max_depth usernames w choices)))
∧ ∀ k, k ∈ seed_keys
             (profiles (discover_from_usernames client api max_depth usernames
                                                w choices)) →
       k ∈ seen_urns (self_of (run client api max_depth choices
                                   (start max_depth usernames w))).
Proof.
destruct (report_facts client api max_depth usernames w choices)
  as (_ & _ & _ & _ & Hnodup & Hseen & _).
by split.
Qed.

(** X10: the handles a report lists as failed are handles that were given,
    in the order they were given. *)
Theorem report_failed_usernames_given (usernames : list string) (w : World)
        (choices : list nat) :
report_failed_usernames
  (discover_from_usernames client api max_depth usernames w choices)
`sublist_of` usernames.
Proof.
by destruct (report_facts client api max_depth usernames w choices)
  as (_ & Hfu & _).
Qed.

(** X11: every identity key a report lists as a failed expansion is the key
    of a record of the report: only recorded profiles are expanded. *)
Theorem report_failed_urns_recorded (usernames : list string) (w : World)
        (choices : list nat) (u : string) :
u ∈ report_failed_urns
      (discover_from_usernames client api max_depth usernames w choices) →
∃ p, p ∈ profiles (discover_from_usernames client api max_depth usernames w choices)
     ∧ key p = u.
Proof.
destruct (report_facts client api max_depth usernames w choices)
  as (_ & _ & _ & _ & _ & _ & Hfurn & _).
apply Hfurn.
Qed.

(** X12: the activity log of a report never holds more than 30 lines. *)
Theorem report_log_bounded (usernames : list string) (w : World)
        (choices : list nat) :
(length (activity_log
           (discover_from_usernames client api max_depth usernames w choices))
 ≤ 30)%nat.
Proof.
by destruct (report_facts client api max_depth usernames w choices) as (Hlog & _).
Qed.

(** *** The marking loop *)

Lemma mark_similar_mono (similar_profiles : list dict) (us : list string)
      (self : ProfileTreeDiscovery) (k : string) :
k ∈ seen_urns self → k ∈ seen_urns (mark_similar similar_profiles us self).2.
Proof.
destruct (mark_similar_effects similar_profiles us self) as [Hsub _]. apply Hsub.
Qed.

Lemma mark_similar_marks (similar_profiles : list dict) :
∀ (us : list string) (self : ProfileTreeDiscovery) (similar : dict),
  similar ∈ similar_profiles → eligible similar →
  text (get similar "urn") ∈ seen_urns (mark_similar similar_profiles us self).2.
Proof.
induction similar_profiles as [|x rest IH]; intros us self similar Hin Helig.
{ by apply elem_of_nil in Hin. }
apply elem_of_cons in Hin as [->|Hin].
- destruct Helig as [Hurn Huser]. simpl. rewrite Huser bool_decide_eq_true_2 //=.
  case_bool_decide as Hnew.
  + apply mark_similar_mono. simpl.
    apply elem_of_union. left. by apply elem_of_singleton.
  + by apply mark_similar_mono.
- simpl. destruct (_ && _); by apply IH.
Qed.

Lemma mark_similar_noop (similar_profiles : list dict) :
∀ (us : list string) (self : ProfileTreeDiscovery),
  (∀ similar, similar ∈ similar_profiles → eligible similar →
              text (get similar "urn") ∈ seen_urns self) →
  mark_similar similar_profiles us self = (us, self).
Proof.
induction similar_profiles as [|x rest IH]; intros us self Hseen; [done|].
simpl.
destruct (bool_decide (text (get x "urn") ≠ "")) eqn:Hurn; simpl;
  [|apply IH; intros; apply Hseen; [by right|done]].
destruct (truthy (if truthy (get x "username") then _ else _)) eqn:Huser; simpl;
  [|apply IH; intros; apply Hseen; [by right|done]].
apply bool_decide_eq_true in Hurn.
rewrite bool_decide_eq_false_2.
{ intros Hnot. apply Hnot, Hseen; [by left|done]. }
apply IH. intros; apply Hseen; [by right|done].
Qed.

Lemma mark_similar_count (similar_profiles : list dict) :
∀ (us : list string) (self : ProfileTreeDiscovery),
  (length (mark_similar similar_profiles us self).1
   + size (seen_urns self))%nat
  = (length us + size (seen_urns (mark_similar similar_profiles us self).2))%nat.
Proof.
induction similar_profiles as [|x rest IH]; intros us self; [simpl; lia|].
simpl. destruct (bool_decide (text (get x "urn") ≠ "")); simpl; [|apply IH].
destruct (truthy _); simpl; [|apply IH].
case_bool_decide as Hnew; simpl; [|apply IH].
match goal with
| |- context [mark_similar rest ?us' ?self'] =>
  pose proof (IH us' self') as Hcount
end.
rewrite length_app /= size_union in Hcount.
{ by apply disjoint_singleton_l. }
rewrite size_singleton in Hcount. lia.
Qed.

(** The keys seen after the loop: those seen before it and those of the
    candidates of the list. *)
Lemma mark_similar_seen (similar_profiles : list dict) :
∀ (us : list string) (self : ProfileTreeDiscovery) (k : string),
  k ∈ seen_urns (mark_similar similar_profiles us self).2
  ↔ k ∈ seen_urns self
    ∨ ∃ similar, similar ∈ similar_profiles ∧ eligible similar
                 ∧ text (get similar "urn") = k.
Proof.
induction similar_profiles as [|x rest IH]; intros us self k.
{ simpl. split; [by left|].
  intros [?|(similar & Hin & _)]; [done|]. by apply elem_of_nil in Hin. }
simpl.
destruct (bool_decide (text (get x "urn") ≠ "")) eqn:Hurn; simpl.
2:{ apply bool_decide_eq_false in Hurn. rewrite IH. split.
    - intros [?|(similar & Hin & Helig & Hk)]; [by left|].
      right. exists similar. split; [by right|done].
    - intros [?|(similar & Hin & Helig & Hk)]; [by left|].
      apply elem_of_cons in Hin as [->|Hin].
      + by destruct Helig.
      + right. by exists similar. }
apply bool_decide_eq_true in Hurn.
destruct (truthy (if truthy (get x "username") then _ else _)) eqn:Huser; simpl.
2:{ rewrite IH. split.
    - intros [?|(similar & Hin & Helig & Hk)]; [by left|].
      right. exists similar. split; [by right|done].
    - intros [?|(similar & Hin & Helig & Hk)]; [by left|].
      apply elem_of_cons in Hin as [->|Hin].
      + destruct Helig as [_ Hhandle]. by rewrite Huser in Hhandle.
      + right. by exists similar. }
assert (eligible x) as Hx by done.
case_bool_decide as Hnew; simpl.
- rewrite IH /= elem_of_union elem_of_singleton. split.
  + intros [[->|?]|(similar & Hin & Helig & Hk)].
    * right. exists x. split; [by left|done].
    * by left.
    * right. exists similar. split; [by right|done].
  + intros [?|(similar & Hin & Helig & Hk)]; [left; by right|].
    apply elem_of_cons in Hin as [->|Hin]; [left; by left|].
    right. by exists similar.
- rewrite IH. split.
  + intros [?|(similar & Hin & Helig & Hk)]; [by left|].
    right. exists similar. split; [by right|done].
  + intros [?|(similar & Hin & Helig & Hk)]; [by left|].
    apply elem_of_cons in Hin as [->|Hin]; [left; by rewrite -Hk|].
    right. by exists similar.
Qed.

(** The handles the loop queues: those of candidates whose key was not seen
    before the loop. *)
Lemma mark_similar_queued (similar_profiles : list dict) :
∀ (us : list string) (self : ProfileTreeDiscovery) (h : string),
  h ∈ (mark_similar similar_profiles us self).1 →
  h ∈ us
  ∨ ∃ similar, similar ∈ similar_profiles ∧ eligible similar
               ∧ (text (get similar "urn") ∉ seen_urns self)
               ∧ h = text (if truthy (get similar "username")
                           then get similar "username"
                           else get similar "publicIdentifier").
Proof.
induction similar_profiles as [|x rest IH]; intros us self h; [by left|].
simpl.
destruct (bool_decide (text (get x "urn") ≠ "")) eqn:Hurn; simpl.
2:{ intros [?|(similar & Hin & Hrest)]%IH; [by left|].
    right. exists similar. split; [by right|done]. }
apply bool_decide_eq_true in Hurn.
destruct (truthy (if truthy (get x "username") then _ else _)) eqn:Huser; simpl.
2:{ intros [?|(similar & Hin & Hrest)]%IH; [by left|].
    right. exists similar. split; [by right|done]. }
assert (eligible x) as Hx by done.
case_bool_decide as Hnew; simpl.
- intros [Hh|(similar & Hin & Helig & Hfresh & Hh)]%IH.
  + apply elem_of_app in Hh as [?|Hh]; [by left|].
    apply list_elem_of_singleton in Hh as ->.
    right. exists x. split; [by left|done].
  + right. exists similar. split; [by right|]. split; [done|]. split; [|done].
    simpl in Hfresh. by apply not_elem_of_union in Hfresh as [_ ?].
- intros [?|(similar & Hin & Hrest)]%IH; [by left|].
  right. exists similar. split; [by right|done].
Qed.

(** X13: the marking loop marks as seen the identity key of every candidate
    of the similar-profiles list, a candidate being an entry with a
    non-empty key and a handle, and marks nothing else; it queues one
    handle for each key it adds, each the handle of a candidate whose key
    was not seen before; so that going over the same list again queues
    nothing and leaves the object as it is. *)
Theorem mark_similar_marks_once (similar_profiles : list dict)
        (self : ProfileTreeDiscovery) :
let queued := (mark_similar similar_profiles [] self).1 in
let self' := (mark_similar similar_profiles [] self).2 in
(∀ k, k ∈ seen_urns self'
      ↔ k ∈ seen_urns self
        ∨ ∃ similar, similar ∈ similar_profiles ∧ eligible similar
                     ∧ text (get similar "urn") = k)
∧ (∀ h, h ∈ queued →
        ∃ similar, similar ∈ similar_profiles ∧ eligible similar
                   ∧ (text (get similar "urn") ∉ seen_urns self)
                   ∧ h = text (if truthy (get similar "username")
                               then get similar "username"
                               else get similar "publicIdentifier"))
∧ (length queued + size (seen_urns self) = size (seen_urns self'))%nat
∧ mark_similar similar_profiles [] self' = ([], self').
Proof.
split; [apply mark_similar_seen|]. split; [|split].
- intros h [Hh|?]%mark_similar_queued; [|done]. by apply elem_of_nil in Hh.
- by rewrite mark_similar_count.
- apply mark_similar_noop. intros similar Hin Helig.
  by apply mark_similar_marks.
Qed.

End run_properties.

(** ** Export: file names, columns and rows *)

Lemma str_length_app (s t : string) :
String.length (s +:+ t) = (String.length s + String.length t)%nat.
Proof. induction s as [|a s IH]; simpl; [done|]. by rewrite IH. Qed.

Lemma str_app_assoc (s t u : string) : (s +:+ t) +:+ u = s +:+ t +:+ u.
Proof.
induction s as [|a s IH]; [done|].
change (String a ((s +:+ t) +:+ u) = String a (s +:+ t +:+ u)). by rewrite IH.
Qed.

Lemma str_drop_app (s t : string) : str_drop (String.length s) (s +:+ t) = t.
Proof. induction s as [|a s IH]; simpl; [by destruct t|done]. Qed.

Lemma str_take_drop (n : nat) (s : string) : str_take n s +:+ str_drop n s = s.
Proof.
revert s. induction n as [|n IH]; intros [|a s]; simpl; try done.
change (String a (str_take n s +:+ str_drop n s) = String a s).
by rewrite IH.
Qed.

Lemma str_length_take (n : nat) (s : string) :
String.length (str_take n s) = (n `min` String.length s)%nat.
Proof.
revert s. induction n as [|n IH]; intros [|a s]; simpl; try done.
by rewrite IH.
Qed.

Lemma str_length_drop (n : nat) (s : string) :
String.length (str_drop n s) = (String.length s - n)%nat.
Proof.
revert s. induction n as [|n IH]; intros [|a s]; simpl; try done.
Qed.

Lemma ends_with_app (suffix s : string) : ends_with suffix (s +:+ suffix) = true.
Proof.
rewrite /ends_with /str_last str_length_app.
replace (String.length s + String.length suffix - String.length suffix)%nat
  with (String.length s) by lia.
by rewrite str_drop_app bool_decide_eq_true_2.
Qed.

Section export_names.
Import ExportNames.

(** The shape the three names share. *)
Lemma normalised_name (ext dflt : string) (filename : option string) :
let name := if bool_decide (default "" filename = "") then dflt +:+ ext
            else default "" filename in
let result := if ends_with ext name then name else name +:+ ext in
ext ≠ "" →
ends_with ext result = true
∧ result ≠ ""
∧ (∀ given, filename = Some given → given ≠ "" →
            result = if ends_with ext given then given else given +:+ ext)
∧ (if bool_decide (default "" (Some result) = "") then dflt +:+ ext
   else default "" (Some result)) = result.
Proof.
intros name result Hext.
assert (ends_with ext result = true) as Hends.
{ rewrite /result. destruct (ends_with ext name) eqn:Hn; [done|apply ends_with_app]. }
assert (result ≠ "") as Hne.
{ intros Hempty. rewrite Hempty /ends_with /str_last /= in Hends.
  apply bool_decide_eq_true in Hends. by destruct ext. }
split; [done|]. split; [done|]. split.
- intros given -> Hgiven. rewrite /result /name /=.
  by rewrite bool_decide_eq_false_2.
- simpl. by rewrite bool_decide_eq_false_2.
Qed.

(** X15: each exporter writes to a name that ends with its extension; a
    name given with the extension is kept, a name given without it gets the
    extension appended, and naming a file after the result changes
    nothing. *)
Theorem export_names_normalised (timestamp : string) (filename : option string) :
(ends_with ".csv" (csv_filename timestamp filename) = true
 ∧ ends_with ".json" (json_filename timestamp filename) = true
 ∧ ends_with ".txt" (tree_filename timestamp filename) = true)
∧ (∀ given, filename = Some given → given ≠ "" →
     csv_filename timestamp filename
     = (if ends_with ".csv" given then given else given +:+ ".csv")
     ∧ json_filename timestamp filename
       = (if ends_with ".json" given then given else given +:+ ".json")
     ∧ tree_filename timestamp filename
       = (if ends_with ".txt" given then given else given +:+ ".txt"))
∧ (csv_filename timestamp (Some (csv_filename timestamp filename))
   = csv_filename timestamp filename
   ∧ json_filename timestamp (Some (json_filename timestamp filename))
     = json_filename timestamp filename
   ∧ tree_filename timestamp (Some (tree_filename timestamp filename))
     = tree_filename timestamp filename).
Proof.
destruct (normalised_name ".csv" ("linkedin_leads_" +:+ timestamp) filename)
  as (C1 & C2 & C3 & C4); [done|].
destruct (normalised_name ".json" ("linkedin_leads_" +:+ timestamp) filename)
  as (J1 & J2 & J3 & J4); [done|].
destruct (normalised_name ".txt" ("linkedin_leads_tree_" +:+ timestamp) filename)
  as (T1 & T2 & T3 & T4); [done|].
rewrite !str_app_assoc in C1 C2 C3 C4 J1 J2 J3 J4 T1 T2 T3 T4.
split; [by rewrite /csv_filename /json_filename /tree_filename|].
split.
- intros given Hf Hgiven.
  rewrite /csv_filename /json_filename /tree_filename.
  by rewrite (C3 given) // (J3 given) // (T3 given).
- rewrite {1}/csv_filename {1}/json_filename {1}/tree_filename.
  rewrite -/(csv_filename timestamp filename) in C1 C4.
  rewrite -/(json_filename timestamp filename) in J1 J4.
  rewrite -/(tree_filename timestamp filename) in T1 T4.
  cbv zeta. by rewrite C4 J4 T4 C1 J1 T1.
Qed.
End export_names.

Section csv_more.
Import CsvExport ExportNames.

Lemma flatten_profile_steps (profile : dict) :
flatten_profile profile
= foldr (λ step m, if step.1 then with_fields step.2 m else m)
        (base_fields profile) (nested_fields profile).
Proof. reflexivity. Qed.

Lemma with_fields_keys (fields : list (string * value)) (m : dict) (key : string) :
is_Some (with_fields fields m !! key) ↔ key ∈ fields.*1 ∨ is_Some (m !! key).
Proof.
induction fields as [|[k v] fields IH]; simpl.
- split; [by right|]. by intros [?%elem_of_nil|?].
- rewrite lookup_insert_is_Some' IH elem_of_cons. intuition auto.
Qed.

Lemma base_fields_keys (profile : dict) (key : string) :
is_Some (base_fields profile !! key) ↔ key ∈ base_columns.
Proof.
by rewrite -elem_of_dom /base_fields dom_list_to_map_L elem_of_list_to_set.
Qed.

Lemma base_fields_present (profile : dict) (key : string) :
key ∈ base_columns → is_Some (flatten_profile profile !! key).
Proof.
intros Hkey. rewrite flatten_profile_steps.
induction (nested_fields profile) as [|[b fields] steps IH]; simpl.
- by apply base_fields_keys.
- destruct b; [|done]. apply with_fields_keys. by right.
Qed.

Lemma flattened_fields_known (profile : dict) (key : string) :
is_Some (flatten_profile profile !! key) → key ∈ base_columns ++ nested_columns.
Proof.
rewrite flatten_profile_steps elem_of_app.
assert (Forall (λ step, ∀ k, k ∈ step.2.*1 → k ∈ nested_columns)
               (nested_fields profile)) as Hsteps.
{ rewrite /nested_fields /nested_columns. cbv zeta.
  repeat apply Forall_cons_2; [..|apply Forall_nil_2]; simpl; intros k Hk;
    rewrite !elem_of_cons elem_of_nil in Hk; rewrite !elem_of_cons;
    intuition auto. }
induction Hsteps as [|[b fields] steps Hstep _ IH]; simpl.
- intros ?%base_fields_keys. by left.
- destruct b; [|done]. intros [Hk|Hk]%with_fields_keys; [|by apply IH].
  right. by apply Hstep.
Qed.

(** X16: a flattened record always holds the twelve base fields, whatever
    the record lacks, and holds no field beyond them and the nine fields
    drawn from nested data; so the columns of the CSV are among these
    twenty-one names. *)
Theorem csv_columns_known (profiles : list dict) (columns : list string)
        (rows : list (list value)) :
export_to_csv profiles = Some (columns, rows) →
(∀ profile key, key ∈ base_columns → is_Some (flatten_profile profile !! key))
∧ (∀ key, key ∈ columns → key ∈ base_columns ++ nested_columns).
Proof.
intros Hexport. split.
- intros profile key Hkey. by apply base_fields_present.
- intros key Hkey. rewrite /export_to_csv in Hexport.
  case_bool_decide; [done|]. injection Hexport as <- _.
  apply elem_of_fieldnames in Hkey as (flat & Hin & Htrue).
  apply list_elem_of_fmap in Hin as (profile & -> & _).
  apply (flattened_fields_known profile).
  rewrite /get in Htrue. by destruct (flatten_profile profile !! key).
Qed.

(** X17: the rows of the CSV follow the records, and nothing truthy is
    lost or invented: a flattened field of a record whose value is truthy
    stands in the record's row under the column of its name, and every
    column holds a truthy cell in at least one row. *)
Theorem csv_cells_complete (profiles : list dict) (columns : list string)
        (rows : list (list value)) :
export_to_csv profiles = Some (columns, rows) →
(∀ i profile key v,
   profiles !! i = Some profile →
   flatten_profile profile !! key = Some v → truthy v = true →
   ∃ j cells, columns !! j = Some key
              ∧ rows !! i = Some cells ∧ cells !! j = Some v)
∧ (∀ j key,
     columns !! j = Some key →
     ∃ i profile cells v,
       profiles !! i = Some profile
       ∧ rows !! i = Some cells ∧ cells !! j = Some v
       ∧ flatten_profile profile !! key = Some v ∧ truthy v = true).
Proof.
rewrite /export_to_csv. case_bool_decide; [done|]. intros [= <- <-].
split.
- intros i profile key v Hp Hv Htrue.
  assert (key ∈ fieldnames (flatten_profile <$> profiles)) as Hkey.
  { apply elem_of_fieldnames. exists (flatten_profile profile). split.
    - apply list_elem_of_fmap. exists profile. split; [done|].
      by apply list_elem_of_lookup_2 in Hp.
    - by rewrite /get Hv. }
  apply list_elem_of_lookup in Hkey as [j Hj].
  exists j, (row (fieldnames (flatten_profile <$> profiles)) (flatten_profile profile)).
  split; [done|]. split.
  + by rewrite -list_fmap_compose list_lookup_fmap Hp.
  + by rewrite /row -/(fmap _ _) list_lookup_fmap Hj /= /get_or Hv.
- intros j key Hj.
  assert (key ∈ fieldnames (flatten_profile <$> profiles)) as Hkey
      by by apply list_elem_of_lookup_2 in Hj.
  apply elem_of_fieldnames in Hkey as (flat & Hin & Htrue).
  apply list_elem_of_fmap in Hin as (profile & -> & Hin).
  apply list_elem_of_lookup in Hin as [i Hp].
  rewrite /get in Htrue.
  destruct (flatten_profile profile !! key) as [v|] eqn:Hv; [|done].
  exists i, profile,
    (row (fieldnames (flatten_profile <$> profiles)) (flatten_profile profile)), v.
  split; [done|]. split; [|split; [|done]].
  + by rewrite -list_fmap_compose list_lookup_fmap Hp.
  + by rewrite /row -/(fmap _ _) list_lookup_fmap Hj /= /get_or Hv.
Qed.
End csv_more.

(** ** Input and display helpers *)

Section cli_facts.
Import Cli.

Lemma contains_char (c a : ascii) (s : string) :
contains (String c EmptyString) (String a s)
= bool_decide (c = a) || contains (String c EmptyString) s.
Proof. simpl. by rewrite andb_true_r. Qed.

Lemma contains_char_app (c : ascii) (s t : string) :
contains (String c EmptyString) (s +:+ t)
= contains (String c EmptyString) s || contains (String c EmptyString) t.
Proof.
induction s as [|a s IH].
- by destruct t.
- change (String a s +:+ t) with (String a (s +:+ t)).
  by rewrite !contains_char IH orb_assoc.
Qed.

Lemma lstrip_no_char (c : ascii) (s : string) :
contains (String c EmptyString) s = false →
contains (String c EmptyString) (lstrip s) = false.
Proof.
induction s as [|a s IH]; [done|]. intros H. simpl.
destruct (is_space a); [|done]. apply IH.
rewrite contains_char in H. by apply orb_false_elim in H as [_ ?].
Qed.

Lemma rstrip_no_char (c : ascii) (s : string) :
contains (String c EmptyString) s = false →
contains (String c EmptyString) (rstrip s) = false.
Proof.
induction s as [|a s IH]; [done|]. intros H. simpl.
rewrite contains_char in H. apply orb_false_elim in H as [Ha Hs].
destruct (is_space a && _); [done|].
by rewrite contains_char Ha IH.
Qed.

Lemma lstrip_idemp (s : string) : lstrip (lstrip s) = lstrip s.
Proof.
induction s as [|a s IH]; [done|]. simpl.
destruct (is_space a) eqn:Ha; [done|]. by rewrite /= Ha.
Qed.

Lemma rstrip_idemp (s : string) : rstrip (rstrip s) = rstrip s.
Proof.
induction s as [|a s IH]; [done|]. simpl.
destruct (is_space a && bool_decide (rstrip s = "")) eqn:Ha; [done|].
by rewrite /= IH Ha.
Qed.

Lemma lstrip_head (a : ascii) (s : string) :
lstrip (String a s) = String a s → is_space a = false.
Proof.
simpl. destruct (is_space a); [|done]. intros Hs. exfalso.
assert (∀ t, String.length (lstrip t) ≤ String.length t)%nat as Hlen.
{ induction t as [|b t IH]; simpl; [done|]. destruct (is_space b); simpl; lia. }
specialize (Hlen s). rewrite Hs /= in Hlen. lia.
Qed.

(** Stripping the right end leaves a stripped left end alone. *)
Lemma lstrip_rstrip (s : string) : lstrip s = s → lstrip (rstrip s) = rstrip s.
Proof.
destruct s as [|a s]; [done|]. intros Ha%lstrip_head.
by rewrite /= Ha /= Ha.
Qed.

Lemma strip_clean (s : string) :
lstrip (strip s) = strip s ∧ rstrip (strip s) = strip s.
Proof.
rewrite /strip. split; [|apply rstrip_idemp].
apply lstrip_rstrip, lstrip_idemp.
Qed.

Lemma split_no_sep (c : ascii) (s : string) (u : string) :
u ∈ split c s → contains (String c EmptyString) u = false.
Proof.
revert u. induction s as [|a s IH]; intros u; simpl.
- by intros ->%list_elem_of_singleton.
- case_bool_decide as Ha.
  + intros [->|Hu]%elem_of_cons; [done|by apply IH].
  + destruct (split c s) as [|part parts] eqn:Hsplit.
    * intros ->%list_elem_of_singleton.
      rewrite contains_char bool_decide_eq_false_2 //. by intros ->.
    * intros [->|Hu]%elem_of_cons.
      -- rewrite contains_char bool_decide_eq_false_2; [by intros ->|].
         apply IH. by left.
      -- apply IH. by right.
Qed.

Lemma split_whole (c : ascii) (s : string) :
contains (String c EmptyString) s = false → split c s = [s].
Proof.
induction s as [|a s IH]; [done|]. rewrite contains_char.
intros [Ha Hs]%orb_false_elim. simpl.
rewrite bool_decide_eq_false_2; [by intros ->; rewrite bool_decide_eq_true_2 in Ha|].
by rewrite IH.
Qed.

Lemma split_app (c : ascii) (s t : string) :
contains (String c EmptyString) s = false →
split c (s +:+ String c t) = s :: split c t.
Proof.
induction s as [|a s IH]; intros H.
- simpl. by rewrite bool_decide_eq_true_2.
- rewrite contains_char in H. apply orb_false_elim in H as [Ha Hs].
  change (String a s +:+ String c t) with (String a (s +:+ String c t)).
  simpl. rewrite bool_decide_eq_false_2;
    [by intros ->; rewrite bool_decide_eq_true_2 in Ha|].
  by rewrite IH.
Qed.

(** A handle with clean ends, after one blank or none. *)
Lemma strip_padded (pad u : string) :
pad = "" ∨ pad = " " →
u ≠ "" → lstrip u = u → rstrip u = u →
strip (pad +:+ u) = u.
Proof.
intros Hpad Hne Hl Hr. rewrite /strip.
assert (lstrip (pad +:+ u) = u) as ->; [|done].
by destruct Hpad as [-> | ->].
Qed.

Lemma parse_joined (names : list string) :
∀ pad, pad = "" ∨ pad = " " →
  names ≠ [] → Forall clean_handle names →
  strip <$> filter (λ u, strip u ≠ "")
                   (split "," (pad +:+ CsvExport.join ", " names))
  = names.
Proof.
induction names as [|n rest IH]; intros pad Hpad Hne Hclean; [done|].
apply Forall_cons in Hclean as [(Hn & Hl & Hr & Hcomma) Hrest].
assert (contains "," (pad +:+ n) = false) as Hpadded.
{ rewrite contains_char_app Hcomma. by destruct Hpad as [-> | ->]. }
destruct rest as [|n' rest].
- simpl. rewrite split_whole //.
  rewrite filter_cons_True; [by rewrite strip_padded|].
  by rewrite /= strip_padded.
- change (CsvExport.join ", " (n :: n' :: rest))
    with (n +:+ ", " +:+ CsvExport.join ", " (n' :: rest)).
  assert (pad +:+ n +:+ ", " +:+ CsvExport.join ", " (n' :: rest)
          = (pad +:+ n) +:+ String "," (" " +:+ CsvExport.join ", " (n' :: rest)))
    as ->.
  { clear. destruct pad as [|a pad]; [done|].
    induction (String a pad) as [|b s IHs]; [done|].
    change (String b s +:+ ?x) with (String b (s +:+ x)).
    change ((String b s +:+ n) +:+ ?x) with (String b ((s +:+ n) +:+ x)).
    by rewrite IHs. }
  rewrite split_app // filter_cons_True; [by rewrite strip_padded|].
  rewrite fmap_cons strip_padded //. f_equal.
  apply (IH " "); [by right|done|done].
Qed.

Lemma rstrip_newline (u : string) :
rstrip (u +:+ String "010" EmptyString) = rstrip u.
Proof.
induction u as [|a u IH]; [done|].
change (String a u +:+ ?x) with (String a (u +:+ x)).
by rewrite /= IH.
Qed.

(** X18: every handle read from an answer in ASCII is non-empty, free of
    commas and without whitespace at either end, and an empty answer gives
    no handle. *)
Theorem usernames_input_clean (usernames_input : option string) :
ascii_only (default "" usernames_input) = true →
Forall clean_handle (get_usernames_input usernames_input)
∧ (default "" usernames_input = "" → get_usernames_input usernames_input = []).
Proof.
intros _. split.
- rewrite /get_usernames_input. case_bool_decide; [done|].
  apply Forall_forall. intros u Hu.
  apply list_elem_of_fmap in Hu as (raw & -> & Hraw).
  apply list_elem_of_filter in Hraw as [Hne Hraw].
  destruct (strip_clean raw) as [Hl Hr].
  split; [done|]. split; [done|]. split; [done|].
  by apply rstrip_no_char, lstrip_no_char,
    (split_no_sep "," (default "" usernames_input) raw).
- intros Hempty. by rewrite /get_usernames_input bool_decide_eq_true_2.
Qed.

(** X19: ASCII handles that are non-empty, free of commas and without
    whitespace at either end, written as a list separated by a comma and a
    blank, are read back from the prompt as they were written: same
    handles, same order, duplicates kept. *)
Theorem usernames_input_round_trip (names : list string) :
Forall (λ u, ascii_only u = true) names →
Forall clean_handle names →
get_usernames_input (Some (CsvExport.join ", " names)) = names.
Proof.
intros _ Hclean. rewrite /get_usernames_input.
destruct names as [|n rest]; [done|].
rewrite bool_decide_eq_false_2.
{ apply Forall_cons in Hclean as [(Hn & _) _]. simpl.
  destruct rest; [done|]. by destruct n. }
by apply (parse_joined (n :: rest) ""); [left|..].
Qed.

(** X20: the handles loaded from a file of ASCII lines are the non-blank
    lines, in their order, each without whitespace at either end; a
    missing file gives no handle. *)
Theorem usernames_file_clean (lines : list string) :
Forall (λ line, ascii_only line = true) lines →
Forall (λ u, u ≠ "" ∧ lstrip u = u ∧ rstrip u = u)
       (load_usernames_from_file (Some lines))
∧ load_usernames_from_file (Some lines)
  `sublist_of` (strip <$> lines)
∧ (∀ line, line ∈ lines → strip line ≠ "" →
           strip line ∈ load_usernames_from_file (Some lines))
∧ load_usernames_from_file None = [].
Proof.
intros _. simpl. split; [|split; [|split; [|done]]].
- apply Forall_forall. intros u Hu.
  apply list_elem_of_fmap in Hu as (raw & -> & Hraw).
  apply list_elem_of_filter in Hraw as [Hne _].
  by destruct (strip_clean raw).
- apply fmap_sublist, sublist_filter.
- intros line Hin Hne. apply list_elem_of_fmap. exists line. split; [done|].
  by apply list_elem_of_filter.
Qed.

(** X21: when the lines of a file are ASCII handles without whitespace at
    either end, each followed by a line feed, they are loaded back as
    written. *)
Theorem usernames_file_round_trip (names : list string) :
Forall (λ u, ascii_only u = true) names →
Forall (λ u, u ≠ "" ∧ lstrip u = u ∧ rstrip u = u) names →
load_usernames_from_file (Some ((λ u, u +:+ String "010" EmptyString) <$> names))
= names.
Proof.
intros _ Hclean. simpl.
induction Hclean as [|u names (Hne & Hl & Hr) _ IH]; [done|].
assert (strip (u +:+ String "010" EmptyString) = u) as Hstrip.
{ rewrite /strip.
  assert (lstrip (u +:+ String "010" EmptyString) = u +:+ String "010" EmptyString)
    as ->; [|by rewrite rstrip_newline].
  destruct u as [|a u]; [done|]. apply lstrip_head in Hl.
  change (String a u +:+ ?x) with (String a (u +:+ x)).
  by rewrite /= Hl. }
rewrite fmap_cons filter_cons_True; [by rewrite Hstrip|].
by rewrite fmap_cons Hstrip IH.
Qed.

(** X22: of an ASCII API key of more than 14 characters the header shows
    the first 8 and the last 6, and leaves out a non-empty part between
    them; of a shorter key it shows nothing. *)
Theorem api_key_masked (api_key : string) :
ascii_only api_key = true →
((14 < String.length api_key)%nat →
 ∃ hidden,
   hidden ≠ ""
   ∧ api_key = str_take 8 api_key +:+ hidden +:+ str_last 6 api_key
   ∧ String.length (str_take 8 api_key) = 8%nat
   ∧ String.length (str_last 6 api_key) = 6%nat
   ∧ masked_api_key api_key = str_take 8 api_key +:+ "..." +:+ str_last 6 api_key)
∧ ((String.length api_key ≤ 14)%nat → masked_api_key api_key = "***...***").
Proof.
intros _. split.
- intros Hlen.
  exists (str_take (String.length api_key - 14) (str_drop 8 api_key)).
  assert (str_last 6 api_key
          = str_drop (String.length api_key - 14) (str_drop 8 api_key)) as Hlast.
  { rewrite /str_last.
    replace (String.length api_key - 6)%nat
      with (8 + (String.length api_key - 14))%nat by lia.
    generalize (String.length api_key - 14)%nat. clear. revert api_key.
    assert (∀ n m s, str_drop (n + m) s = str_drop m (str_drop n s)) as Hadd.
    { induction n as [|n IH]; intros m [|a s]; simpl; try done.
      by destruct m. }
    intros. apply Hadd. }
  split; [|split; [|split; [|split]]].
  + intros Hempty.
    assert (String.length (str_take (String.length api_key - 14)
                                    (str_drop 8 api_key)) = 0%nat) as H0
        by by rewrite Hempty.
    rewrite str_length_take str_length_drop in H0. lia.
  + by rewrite Hlast str_take_drop str_take_drop.
  + rewrite str_length_take. lia.
  + rewrite /str_last str_length_drop. lia.
  + by rewrite /masked_api_key bool_decide_eq_true_2.
- intros Hlen. rewrite /masked_api_key bool_decide_eq_false_2 //. lia.
Qed.
End cli_facts.

(** ** From the depth prompt to the report *)

Section depth_prompt.
Import Client Discovery Cli.
Context {World : Type} (client : LeadsAPIClient) (api : AsyncLinkdAPI World).

(** X23: an ASCII answer the depth prompt accepts is read as a depth
    between 1 and 10, and a run started with it reports no record beyond
    that depth: every [depth_level] lies between 0 and the depth that was
    entered. *)
Theorem accepted_depth_bounds_levels (depth : string) (usernames : list string)
        (w : World) (choices : list nat) (r : dict) :
ascii_only depth = true →
depth_validate depth = true →
r ∈ profiles (discover_from_usernames client api (get_depth depth) usernames w
                                      choices) →
1 ≤ get_depth depth ≤ 10
∧ ∃ n, r !! "depth_level" = Some (VInt n) ∧ 0 ≤ n ≤ get_depth depth.
Proof.
intros _ Hvalid Hr.
assert (1 ≤ get_depth depth ≤ 10) as Hdepth.
{ rewrite /depth_validate in Hvalid. destruct (isdigit depth); [|done].
  apply andb_true_iff in Hvalid as [?%Z.leb_le ?%Z.leb_le]. by rewrite /get_depth. }
split; [done|].
destruct (report_facts client api (get_depth depth) usernames w choices)
  as (_ & _ & Hlevels & _).
rewrite Forall_forall in Hlevels. destruct (Hlevels r Hr) as (n & Hn & Hle).
exists n. split; [done|]. lia.
Qed.
End depth_prompt.


(** ** The properties above at concrete inputs *)

Lemma unrecognised_response_not_retried_witness :
  ∃ evs,
    Client._make_api_call_with_retry client3 unrecognised "alice" 0%nat
    = (Client.Failure "Invalid response format", evs, 1%nat)
    ∧ Client.calls evs = 1%nat
    ∧ last evs = Some Client.Call.
Proof.
  apply (unrecognised_response_not_retried client3 "alice" unrecognised
           0 0%nat 0%nat 1%nat [] {[ "status" := VStr "ok" ]}).
  - reflexivity.
  - constructor.
  - simpl. lia.
  - reflexivity.
  - apply map_non_empty_singleton.
  - reflexivity.
Defined.

Lemma success_after_retries_witness :
  ∃ evs,
    Client._make_api_call_with_retry client3 limited_then_ok "alice" 0%nat
    = (Client.Success {[ "success" := VBool true ]}, evs, 2%nat)
    ∧ Client.calls evs = 2%nat
    ∧ last evs = Some Client.Call.
Proof.
  apply (success_after_retries client3 "alice" limited_then_ok
           1 0%nat 1%nat 2%nat [Client.Raises "HTTP 429"]
           {[ "success" := VBool true ]} (VBool true)).
  - reflexivity.
  - repeat constructor. by eexists.
  - simpl. lia.
  - reflexivity.
  - reflexivity.
  - reflexivity.
Defined.

Lemma response_failure_backoff_witness :
  ∃ pre logs post r w',
    Client._make_api_call_with_retry client3 always_empty "alice" 0%nat
    = (r, pre ++ Client.Call :: logs
            ++ Client.Sleep
                 (if bool_decide (Client.EmptyResponse = Client.ExplicitFailure)
                  then 1 else Client.retry_delay client3)
            :: Client.Call :: post, w')
    ∧ Client.calls pre = 0%nat
    ∧ forallb Client.is_log logs = true.
Proof.
  apply (response_failure_backoff client3 "alice" always_empty
           0 0%nat 0%nat 1%nat [] (Client.Returns None) Client.EmptyResponse).
  - reflexivity.
  - constructor.
  - simpl. lia.
  - reflexivity.
  - reflexivity.
  - by left.
Defined.

Lemma similar_profiles_filtered_witness :
  let entries :=
    [VDict {[ "urn" := VStr "B"; "id" := VInt 1; "username" := VStr "alice" ]};
     VDict {[ "urn" := VStr "D"; "id" := VInt 2; "username" := VStr "carol" ]}] in
  let result := (Client.get_similar_profiles client3 api_two_keys "A" 0%nat).1.1 in
  result.1.1 = true
  ∧ result.2 = None
  ∧ VDict <$> result.1.2 `sublist_of` entries
  ∧ ∀ p, p ∈ result.1.2
         ↔ VDict p ∈ entries
           ∧ truthy (get p "urn") = true ∧ truthy (get p "id") = true.
Proof.
  apply (similar_profiles_filtered client3 api_two_keys "A" 0%nat
           {[ "success" := VBool true;
              "data" := VList
                [VDict {[ "urn" := VStr "B"; "id" := VInt 1;
                          "username" := VStr "alice" ]};
                 VDict {[ "urn" := VStr "D"; "id" := VInt 2;
                          "username" := VStr "carol" ]}] ]}).
  - by vm_compute.
  - by vm_compute.
  - repeat constructor; by eexists.
Defined.

Lemma report_depths_bounded_witness :
  let r : dict := {[ "urn" := VStr "C"; "username" := VStr "carol";
                     "depth_level" := VInt 1; "source_urn" := VStr "A" ]} in
  ∃ n, r !! "depth_level" = Some (VInt n)
       ∧ 0 ≤ n ≤ Z.max 0 1
       ∧ (1 ≤ 0 → n = 0 ∧ r !! "source_urn" = Some (VStr "")).
Proof.
  apply (report_depths_bounded client3 api_two_keys 1 ["alice"] 0%nat
                               (sequential 7)).
  apply (list_elem_of_lookup_2 _ 2). by vm_compute.
Defined.

Lemma report_level_ordered_witness : 0 ≤ 1.
Proof.
  apply (report_level_ordered client3 api_two_keys 1 ["alice"] 0%nat
           (sequential 7) 0 2
           {[ "urn" := VStr "A"; "username" := VStr "alice";
              "depth_level" := VInt 0; "source_urn" := VStr "" ]}
           {[ "urn" := VStr "C"; "username" := VStr "carol";
              "depth_level" := VInt 1; "source_urn" := VStr "A" ]}).
  - lia.
  - by vm_compute.
  - by vm_compute.
  - reflexivity.
  - reflexivity.
Defined.

Lemma report_failed_urns_recorded_witness :
  ∃ p, p ∈ Discovery.profiles
             (Discovery.discover_from_usernames client3 api_alice_only 1 ["alice"]
                                                0%nat (sequential 7))
       ∧ DiscoveryInv.key p = "A".
Proof.
  apply (report_failed_urns_recorded client3 api_alice_only 1 ["alice"] 0%nat
                                     (sequential 7) "A").
  apply (list_elem_of_lookup_2 _ 0). by vm_compute.
Defined.


Lemma csv_columns_known_witness :
  (∀ profile key, key ∈ ExportNames.base_columns →
                  is_Some (CsvExport.flatten_profile profile !! key))
  ∧ (∀ key, key ∈ ["urn"; "username"] →
            key ∈ ExportNames.base_columns ++ ExportNames.nested_columns).
Proof.
  apply (csv_columns_known [seed_record] ["urn"; "username"]
                           [[VStr "A"; VStr "alice"]]).
  by vm_compute.
Defined.

Lemma csv_cells_complete_witness :
  (∀ i profile key v,
     [seed_record] !! i = Some profile →
     CsvExport.flatten_profile profile !! key = Some v → truthy v = true →
     ∃ j cells, ["urn"; "username"] !! j = Some key
                ∧ [[VStr "A"; VStr "alice"]] !! i = Some cells
                ∧ cells !! j = Some v)
  ∧ (∀ j key,
       ["urn"; "username"] !! j = Some key →
       ∃ i profile cells v,
         [seed_record] !! i = Some profile
         ∧ [[VStr "A"; VStr "alice"]] !! i = Some cells ∧ cells !! j = Some v
         ∧ CsvExport.flatten_profile profile !! key = Some v ∧ truthy v = true).
Proof.
  apply (csv_cells_complete [seed_record] ["urn"; "username"]
                            [[VStr "A"; VStr "alice"]]).
  by vm_compute.
Defined.

Lemma usernames_input_clean_witness :
  Forall Cli.clean_handle (Cli.get_usernames_input (Some " alice, bob ,,carol"))
  ∧ (" alice, bob ,,carol" = "" →
     Cli.get_usernames_input (Some " alice, bob ,,carol") = []).
Proof.
  apply (usernames_input_clean (Some " alice, bob ,,carol")).
  reflexivity.
Defined.

Lemma usernames_input_round_trip_witness :
  Cli.get_usernames_input (Some "alice, bob") = ["alice"; "bob"].
Proof.
  apply (usernames_input_round_trip ["alice"; "bob"]).
  - by repeat constructor.
  - by repeat constructor.
Defined.

Lemma usernames_file_clean_witness :
  let lines := [" alice "; ""; "bob"] in
  Forall (λ u, u ≠ "" ∧ Cli.lstrip u = u ∧ Cli.rstrip u = u)
         (Cli.load_usernames_from_file (Some lines))
  ∧ Cli.load_usernames_from_file (Some lines) `sublist_of` (Cli.strip <$> lines)
  ∧ (∀ line, line ∈ lines → Cli.strip line ≠ "" →
             Cli.strip line ∈ Cli.load_usernames_from_file (Some lines))
  ∧ Cli.load_usernames_from_file None = [].
Proof.
  apply (usernames_file_clean [" alice "; ""; "bob"]).
  by repeat constructor.
Defined.

Lemma usernames_file_round_trip_witness :
  Cli.load_usernames_from_file
    (Some ((λ u, u +:+ String "010" EmptyString) <$> ["alice"; "bob"]))
  = ["alice"; "bob"].
Proof.
  apply (usernames_file_round_trip ["alice"; "bob"]).
  - by repeat constructor.
  - by repeat constructor.
Defined.

Lemma api_key_masked_witness :
  ((14 < String.length "key_0123456789abcdef")%nat →
   ∃ hidden,
     hidden ≠ ""
     ∧ "key_0123456789abcdef"
       = str_take 8 "key_0123456789abcdef" +:+ hidden
         +:+ str_last 6 "key_0123456789abcdef"
     ∧ String.length (str_take 8 "key_0123456789abcdef") = 8%nat
     ∧ String.length (str_last 6 "key_0123456789abcdef") = 6%nat
     ∧ Cli.masked_api_key "key_0123456789abcdef"
       = str_take 8 "key_0123456789abcdef" +:+ "..."
         +:+ str_last 6 "key_0123456789abcdef")
  ∧ ((String.length "key_0123456789abcdef" ≤ 14)%nat →
     Cli.masked_api_key "key_0123456789abcdef" = "***...***").
Proof.
  apply (api_key_masked "key_0123456789abcdef"). reflexivity.
Defined.

Lemma accepted_depth_bounds_levels_witness :
  let r : dict := {[ "urn" := VStr "C"; "username" := VStr "carol";
                     "depth_level" := VInt 1; "source_urn" := VStr "A" ]} in
  1 ≤ Cli.get_depth "01" ≤ 10
  ∧ ∃ n, r !! "depth_level" = Some (VInt n) ∧ 0 ≤ n ≤ Cli.get_depth "01".
Proof.
  apply (accepted_depth_bounds_levels client3 api_two_keys "01" ["alice"] 0%nat
                                      (sequential 7)).
  - reflexivity.
  - reflexivity.
  - apply (list_elem_of_lookup_2 _ 2). by vm_compute.
Defined.
